(** * LGMP host engine (src/lgmp/src/host.c): shallow embedding and properties

    The host side of the Looking Glass Memory Protocol: region
    initialisation, the bump allocator, queue creation, message posting and
    the maintenance tick.  Every C integer is a [Z] whose wrap-around is
    written out ([u32], [u64]); C arrays embedded in structs are total
    functions from the index; the shared region is a record holding the
    header and the message slots, the latter keyed by their byte offset. *)

From Stdlib Require Import ZArith List Bool Lia.
Import ListNotations.
Local Open Scope Z_scope.

(** ** Machine integers *)

Definition u32 (x : Z) : Z := x mod 2 ^ 32.
Definition u64 (x : Z) : Z := x mod 2 ^ 64.

(** [size_t] of the LP64 targets the library is built for. *)
Definition usize (x : Z) : Z := u64 x.

(** [~x] on a 32-bit, respectively 64-bit, unsigned operand. *)
Definition not32 (x : Z) : Z := u32 (Z.lnot x).
Definition not64 (x : Z) : Z := u64 (Z.lnot x).

(** [1 << id]; for [id = 31] the value is used as the unsigned 0x80000000. *)
Definition bit (id : Z) : Z := Z.shiftl 1 id.

(** The subscriber ids scanned by [for (id = 0; id < 32; ++id)]. *)
Definition ids32 : list Z := map Z.of_nat (seq 0 32).

(** Array cell update [a[i] = v]. *)
Definition upd {A : Type} (a : Z -> A) (i : Z) (v : A) : Z -> A :=
  fun j => if j =? i then v else a j.

(** ** Constants of host.c *)

Definition LGMP_MAX_MESSAGE_AGE : Z := 150.
Definition LGMP_MAX_QUEUE_TIMEOUT : Z := 10000.

(** ** Declarations of lgmp.h and headers.h *)

(** Modelled from the spec: the status enumeration of lgmp.h is not part of
    the sources; these are the result codes host.c returns, named as the
    code names them (section 7 of the spec lists the same error kinds). *)
Inductive LGMP_STATUS : Type :=
| LGMP_OK
| LGMP_ERR_CLOCK_FAILURE
| LGMP_ERR_INVALID_SIZE
| LGMP_ERR_NO_MEM
| LGMP_ERR_HOST_STARTED
| LGMP_ERR_NO_QUEUES
| LGMP_ERR_NO_SHARED_MEM
| LGMP_ERR_QUEUE_FULL.

(** The compile-time constants of headers.h, which is not part of the
    sources, are parameters of the development. *)
Class Layout : Type := {
  LGMP_MAX_QUEUES : Z;
  LGMP_PROTOCOL_MAGIC : Z;
  LGMP_PROTOCOL_VERSION : Z;
  sizeof_LGMPHeader : Z;
  sizeof_LGMPHeaderMessage : Z;
  sizeof_LGMPHeader_pos : 0 < sizeof_LGMPHeader;
  sizeof_LGMPHeaderMessage_pos : 0 < sizeof_LGMPHeaderMessage
}.

(** Modelled from the spec: the subscriber-word macros of headers.h are not
    part of the sources.  The spec describes the word as "a 64-bit
    subscriber state word packed as two 32-bit masks: subscribed and
    flagged-bad"; the subscribed mask is taken as the high half and the
    flagged-bad mask as the low half. *)
Definition LGMP_SUBS_ON (x : Z) : Z := u32 (Z.shiftr x 32).
Definition LGMP_SUBS_BAD (x : Z) : Z := u32 x.
Definition LGMP_SUBS_OR_BAD (x bad : Z) : Z := Z.lor x bad.
Definition LGMP_SUBS_CLEAR (x cl : Z) : Z :=
  Z.land x (not64 (Z.lor cl (Z.shiftl cl 32))).
Definition LGMP_SUBS_SET (x st : Z) : Z := Z.lor x (Z.shiftl st 32).

(** The structs of headers.h and lgmp.h, with the fields host.c uses.  The
    cursors, counters, masks and the heartbeat are taken as 32-bit unsigned,
    the subscriber word, the clock values and the deadlines as 64-bit, as
    the locals of host.c that hold them are declared. *)

(** struct LGMPHeaderMessage: one message slot of a queue. *)
Record LGMPHeaderMessage : Type := mkMessage {
  msg_udata : Z;
  msg_size : Z;
  msg_offset : Z;
  msg_pendingSubs : Z
}.

(** struct LGMPHeaderQueue: the shared descriptor of a queue. *)
Record LGMPHeaderQueue : Type := mkHeaderQueue {
  hq_queueID : Z;
  hq_numMessages : Z;
  hq_lock : bool;
  hq_subs : Z;
  hq_position : Z;
  hq_messagesOffset : Z
}.

(** struct LGMPHeader: the header at the start of the region. *)
Record LGMPHeader : Type := mkHeader {
  hdr_magic : Z;
  hdr_heartbeat : Z;
  hdr_version : Z;
  hdr_caps : Z;
  hdr_sessionID : Z;
  hdr_numQueues : Z;
  hdr_queues : Z -> LGMPHeaderQueue
}.

(** struct LGMPHQueue: the host-private state of a queue.  The back pointer
    [host] is left out: the operations take the host itself. *)
Record LGMPHQueue : Type := mkHQueue {
  q_index : Z;
  q_position : Z;
  q_count : Z;
  q_start : Z;
  q_msgTimeout : Z;
  q_timeout : Z -> Z
}.

(** struct LGMPMemory: a payload handle ([host] and [mem] pointers left out). *)
Record LGMPMemory : Type := mkMemory {
  mem_offset : Z;
  mem_size : Z
}.

(** The shared region [mem] points to: the header at offset 0 and the message
    slots, each addressed by the byte offset [messagesOffset + sizeof * i].
    A slot is kept whole under the offset it starts at, so two accesses meet
    when they start at the same offset.  This is how the code sees the region
    as long as no two slots overlap in part, which is the case in the hosts
    all of whose queues have at least one slot ([queues_have_slots],
    [slots_apart]); the statements about the content of slots are made for
    these hosts. *)
Record Region : Type := mkRegion {
  rg_header : LGMPHeader;
  rg_messages : Z -> LGMPHeaderMessage
}.

(** struct LGMPHost.  [host_mem] is the content of the region both [mem] and
    [header] point into. *)
Record LGMPHost : Type := mkHost {
  host_mem : Region;
  host_size : Z;
  host_avail : Z;
  host_nextFree : Z;
  host_started : bool;
  host_queues : Z -> LGMPHQueue
}.

Definition host_header (host : LGMPHost) : LGMPHeader :=
  rg_header (host_mem host).

(** ** Field assignments *)

Definition set_pendingSubs (m : LGMPHeaderMessage) (v : Z) : LGMPHeaderMessage :=
  mkMessage (msg_udata m) (msg_size m) (msg_offset m) v.

Definition set_subs_unlock (hq : LGMPHeaderQueue) (v : Z) : LGMPHeaderQueue :=
  mkHeaderQueue (hq_queueID hq) (hq_numMessages hq) false v
                (hq_position hq) (hq_messagesOffset hq).

Definition set_hq_subs (hq : LGMPHeaderQueue) (v : Z) : LGMPHeaderQueue :=
  mkHeaderQueue (hq_queueID hq) (hq_numMessages hq) (hq_lock hq) v
                (hq_position hq) (hq_messagesOffset hq).

Definition set_hq_position (hq : LGMPHeaderQueue) (v : Z) : LGMPHeaderQueue :=
  mkHeaderQueue (hq_queueID hq) (hq_numMessages hq) (hq_lock hq) (hq_subs hq)
                v (hq_messagesOffset hq).

Definition set_heartbeat (h : LGMPHeader) (v : Z) : LGMPHeader :=
  mkHeader (hdr_magic h) v (hdr_version h) (hdr_caps h) (hdr_sessionID h)
           (hdr_numQueues h) (hdr_queues h).

Definition set_hdr_queue (h : LGMPHeader) (i : Z) (hq : LGMPHeaderQueue) : LGMPHeader :=
  mkHeader (hdr_magic h) (hdr_heartbeat h) (hdr_version h) (hdr_caps h)
           (hdr_sessionID h) (hdr_numQueues h) (upd (hdr_queues h) i hq).

Definition set_numQueues (h : LGMPHeader) (v : Z) : LGMPHeader :=
  mkHeader (hdr_magic h) (hdr_heartbeat h) (hdr_version h) (hdr_caps h)
           (hdr_sessionID h) v (hdr_queues h).

Definition set_q_timeout (q : LGMPHQueue) (t : Z -> Z) : LGMPHQueue :=
  mkHQueue (q_index q) (q_position q) (q_count q) (q_start q) (q_msgTimeout q) t.

Definition set_q_start (q : LGMPHQueue) (v : Z) : LGMPHQueue :=
  mkHQueue (q_index q) (q_position q) (q_count q) v (q_msgTimeout q) (q_timeout q).

Definition set_q_count (q : LGMPHQueue) (v : Z) : LGMPHQueue :=
  mkHQueue (q_index q) (q_position q) v (q_start q) (q_msgTimeout q) (q_timeout q).

Definition set_q_position (q : LGMPHQueue) (v : Z) : LGMPHQueue :=
  mkHQueue (q_index q) v (q_count q) (q_start q) (q_msgTimeout q) (q_timeout q).

Definition set_q_msgTimeout (q : LGMPHQueue) (v : Z) : LGMPHQueue :=
  mkHQueue (q_index q) (q_position q) (q_count q) (q_start q) v (q_timeout q).

Definition set_header (r : Region) (h : LGMPHeader) : Region :=
  mkRegion h (rg_messages r).

Definition set_message (r : Region) (addr : Z) (m : LGMPHeaderMessage) : Region :=
  mkRegion (rg_header r) (upd (rg_messages r) addr m).

Definition set_host_mem (host : LGMPHost) (r : Region) : LGMPHost :=
  mkHost r (host_size host) (host_avail host) (host_nextFree host)
         (host_started host) (host_queues host).

Definition set_host_queue (host : LGMPHost) (i : Z) (q : LGMPHQueue) : LGMPHost :=
  mkHost (host_mem host) (host_size host) (host_avail host) (host_nextFree host)
         (host_started host) (upd (host_queues host) i q).

(** The two assignments [host->avail -= n; host->nextFree += n;] that end
    lgmpHostAddQueue and lgmpHostMemAlloc. *)
Definition bump (host : LGMPHost) (n : Z) : LGMPHost :=
  mkHost (host_mem host) (host_size host) (usize (host_avail host - n))
         (usize (host_nextFree host + n)) (host_started host) (host_queues host).

(** * The operations of host.c *)

Section Host.
Context {L : Layout}.

(** ** lgmpHostInit *)

(** The loop [while (sessionID == header->sessionID) header->sessionID = rand();]
    run on the values the successive calls of [rand()] return; [cur] is the
    header's current sessionID.  [None]: the loop has not left within [rands]. *)
Fixpoint pick_sessionID (rands : list Z) (sessionID cur : Z) : option Z :=
  if sessionID =? cur then
    match rands with
    | [] => None
    | r :: rands' => pick_sessionID rands' sessionID (u32 r)
    end
  else Some cur.

(** [mem] is the region as the caller hands it over, [clock] the value of
    [lgmpGetClockMS()], [alloc] the block [malloc] returns (uninitialised,
    [None] for NULL).  The result is the status and [*result]; [None] when
    the call does not return ([assert (size > 0)] fails or the sessionID loop
    does not leave). *)
Definition lgmpHostInit (mem : Region) (size clock : Z) (alloc : option LGMPHost)
    (rands : list Z) : option (LGMP_STATUS * option LGMPHost) :=
  if size =? 0 then None
  else if clock =? 0 then Some (LGMP_ERR_CLOCK_FAILURE, None)
  else if size <? sizeof_LGMPHeader then Some (LGMP_ERR_INVALID_SIZE, None)
  else
    match alloc with
    | None => Some (LGMP_ERR_NO_MEM, None)
    | Some host =>
        let header := rg_header mem in
        match pick_sessionID rands (hdr_sessionID header) (hdr_sessionID header) with
        | None => None
        | Some sessionID =>
            let header :=
              mkHeader LGMP_PROTOCOL_MAGIC 0 LGMP_PROTOCOL_VERSION 0 sessionID 0
                       (hdr_queues header) in
            Some (LGMP_OK,
                  Some (mkHost (set_header mem header) size
                               (usize (size - sizeof_LGMPHeader))
                               sizeof_LGMPHeader false (host_queues host)))
        end
    end.

(** ** lgmpHostFree, lgmpHostMemFree: the handle is released and set to NULL;
    the region is not touched. *)
Definition lgmpHostFree (host : option LGMPHost) : option LGMPHost := None.
Definition lgmpHostMemFree (mem : option LGMPMemory) : option LGMPMemory := None.

(** ** lgmpHostAddQueue *)

(** The result is the status, [*result] (the index of the queue in
    [host->queues], [None] for NULL) and the host afterwards. *)
Definition lgmpHostAddQueue (host : LGMPHost) (queueID numMessages clock : Z)
    : LGMP_STATUS * option Z * LGMPHost :=
  if host_started host then (LGMP_ERR_HOST_STARTED, None, host)
  else if hdr_numQueues (host_header host) =? LGMP_MAX_QUEUES
  then (LGMP_ERR_NO_QUEUES, None, host)
  else
    let numMessages := u32 (numMessages + 1) in
    let needed := usize (sizeof_LGMPHeaderMessage * numMessages) in
    if host_avail host <? needed then (LGMP_ERR_NO_SHARED_MEM, None, host)
    else
      let n := hdr_numQueues (host_header host) in
      let queue :=
        mkHQueue n 0 0 0 (u64 (clock + LGMP_MAX_MESSAGE_AGE))
                 (q_timeout (host_queues host n)) in
      let host := set_host_queue host n queue in
      let hq := mkHeaderQueue queueID numMessages false 0 0 (host_nextFree host) in
      let header := set_numQueues (host_header host) (u32 (n + 1)) in
      let header := set_hdr_queue header n hq in
      let host := set_host_mem host (set_header (host_mem host) header) in
      (LGMP_OK, Some n, bump host needed).

(** ** lgmpHostMemAlloc *)

(** [malloc_ok]: whether [malloc] returns a block for the handle; [result]:
    what [*result] holds before the call.  The first return leaves [*result]
    as it is; [*result = malloc (...)] then stores the block or NULL. *)
Definition lgmpHostMemAlloc (host : LGMPHost) (size : Z) (malloc_ok : bool)
    (result : option LGMPMemory) : LGMP_STATUS * option LGMPMemory * LGMPHost :=
  if size >? host_avail host then (LGMP_ERR_NO_SHARED_MEM, result, host)
  else if negb malloc_ok then (LGMP_ERR_NO_MEM, None, host)
  else
    let mem := mkMemory (host_nextFree host) size in
    (LGMP_OK, Some mem, bump host size).

(** ** lgmpHostPost *)

Definition msg_addr (hq : LGMPHeaderQueue) (i : Z) : Z :=
  hq_messagesOffset hq + sizeof_LGMPHeaderMessage * i.

(** [++x == numMessages ? 0 : x] on a 32-bit cursor. *)
Definition advance (x numMessages : Z) : Z :=
  let x := u32 (x + 1) in
  if x =? numMessages then 0 else x.

(** [qi] is the queue handle (the index into [host->queues]).  The status is
    [None] when control reaches the closing brace of the function: the body
    ends after [atomic_store (&hq->position, queue->position)] without a
    return statement, so no status value is returned on that path. *)
Definition lgmpHostPost (host : LGMPHost) (qi udata : Z) (payload : LGMPMemory)
    (clock : Z) : option LGMP_STATUS * LGMPHost :=
  let queue := host_queues host qi in
  let hq := hdr_queues (host_header host) (q_index queue) in
  let subs := hq_subs hq in
  let pend := Z.land (LGMP_SUBS_ON subs) (not32 (LGMP_SUBS_BAD subs)) in
  if pend =? 0 then (Some LGMP_OK, host)
  else if q_count queue =? u32 (hq_numMessages hq - 1)
  then (Some LGMP_ERR_QUEUE_FULL, host)
  else
    let msg := mkMessage udata (mem_size payload) (mem_offset payload) pend in
    let mem := set_message (host_mem host) (msg_addr hq (q_position queue)) msg in
    let count := q_count queue in
    let queue := set_q_count queue (u32 (count + 1)) in
    let queue :=
      if count =? 0
      then set_q_msgTimeout queue (u64 (clock + LGMP_MAX_MESSAGE_AGE))
      else queue in
    let queue := set_q_position queue (advance (q_position queue) (hq_numMessages hq)) in
    let hq := set_hq_position hq (q_position queue) in
    let mem := set_header mem (set_hdr_queue (rg_header mem) (q_index queue) hq) in
    (None, set_host_queue (set_host_mem host mem) qi queue).

(** ** lgmpHostProcess *)

(** [for (id = 0; id < 32; ++id) if (newBadSubs & (1 << id)) timeout[id] = t;] *)
Definition flag_timeouts (newBadSubs t : Z) (timeout : Z -> Z) : Z -> Z :=
  fold_left
    (fun tbl id => if Z.land newBadSubs (bit id) =? 0 then tbl else upd tbl id t)
    ids32 timeout.

(** [for (id = 0; id < 32; ++id)
      if ((LGMP_SUBS_BAD (subs) & (1 << id)) && now > timeout[id]) reap |= 1 << id;] *)
Definition reap_mask (subs now : Z) (timeout : Z -> Z) : Z :=
  fold_left
    (fun reap id =>
       if negb (Z.land (LGMP_SUBS_BAD subs) (bit id) =? 0) && (now >? timeout id)
       then Z.lor reap (bit id) else reap)
    ids32 0.

(** The critical section of one queue, from the two atomic loads to the
    store of [subs] and the release of the lock, on the three objects it
    touches: the host queue, the shared descriptor and the head message. *)
Definition process_locked (now : Z) (queue : LGMPHQueue) (hq : LGMPHeaderQueue)
    (msg : LGMPHeaderMessage) : LGMPHQueue * LGMPHeaderQueue * LGMPHeaderMessage :=
  let subs := hq_subs hq in
  let pend := msg_pendingSubs msg in
  let '(subs, pend, queue, msg) :=
    if negb (Z.land pend (not32 (LGMP_SUBS_BAD subs)) =? 0)
       && (now >? q_msgTimeout queue)
    then
      let newBadSubs := Z.land pend (not32 (LGMP_SUBS_BAD subs)) in
      let '(subs, queue) :=
        if negb (newBadSubs =? 0)
        then
          let timeout := u64 (now + LGMP_MAX_QUEUE_TIMEOUT) in
          (LGMP_SUBS_OR_BAD subs newBadSubs,
           set_q_timeout queue (flag_timeouts newBadSubs timeout (q_timeout queue)))
        else (subs, queue) in
      (subs, 0, queue, set_pendingSubs msg 0)
    else (subs, pend, queue, msg) in
  let queue :=
    if Z.land pend (not32 (LGMP_SUBS_BAD subs)) =? 0
    then
      let queue := set_q_start queue (advance (q_start queue) (hq_numMessages hq)) in
      let count := q_count queue in
      let queue := set_q_count queue (u32 (count - 1)) in
      if negb (count =? 0)
      then set_q_msgTimeout queue (u64 (now + LGMP_MAX_MESSAGE_AGE))
      else queue
    else queue in
  let subs :=
    if negb (LGMP_SUBS_ON subs =? 0)
    then LGMP_SUBS_CLEAR subs (reap_mask subs now (q_timeout queue))
    else subs in
  (queue, set_subs_unlock hq subs, msg).

(** The body of the loop over the queues for queue [i].  [None]: the lock
    is held, and [while (atomic_flag_test_and_set (&hq->lock)) {}] spins,
    nothing else running that would release it. *)
Definition process_queue (now : Z) (host : LGMPHost) (i : Z) : option LGMPHost :=
  let queue := host_queues host i in
  if q_count queue =? 0 then Some host
  else
    let hq := hdr_queues (host_header host) i in
    let addr := msg_addr hq (q_start queue) in
    let msg := rg_messages (host_mem host) addr in
    if hq_lock hq then None
    else
      let '(queue, hq, msg) := process_locked now queue hq msg in
      let mem := set_message (host_mem host) addr msg in
      let mem := set_header mem (set_hdr_queue (rg_header mem) i hq) in
      Some (set_host_queue (set_host_mem host mem) i queue).

Fixpoint process_queues (now : Z) (host : LGMPHost) (idxs : list Z) : option LGMPHost :=
  match idxs with
  | [] => Some host
  | i :: idxs' =>
      match process_queue now host i with
      | None => None
      | Some host' => process_queues now host' idxs'
      end
  end.

(** The indices [0 .. n-1] of [for (i = 0; i < n; ++i)]. *)
Definition indices (n : Z) : list Z := map Z.of_nat (seq 0 (Z.to_nat n)).

(** [now] is the value of [lgmpGetClockMS()]. *)
Definition lgmpHostProcess (host : LGMPHost) (now : Z)
    : option (LGMP_STATUS * LGMPHost) :=
  let header := host_header host in
  let header := set_heartbeat header (u32 (hdr_heartbeat header + 1)) in
  let host := set_host_mem host (set_header (host_mem host) header) in
  match process_queues now host (indices (hdr_numQueues header)) with
  | None => None
  | Some host' => Some (LGMP_OK, host')
  end.

End Host.

(** * The subscriber side and the runs of a host *)

Section Runs.
Context {L : Layout}.

(** Modelled from the spec: the client is an external collaborator, not part
    of the sources.  "A subscriber must identify itself with an id in
    [0, 31], set its bit in a queue's subscribed mask to join, and for each
    message whose pending mask includes its bit, clear that bit". *)
Definition client_subscribe (host : LGMPHost) (i id : Z) : LGMPHost :=
  let hq := hdr_queues (host_header host) i in
  let hq := set_hq_subs hq (LGMP_SUBS_SET (hq_subs hq) (bit id)) in
  set_host_mem host
    (set_header (host_mem host) (set_hdr_queue (host_header host) i hq)).

Definition client_ack (host : LGMPHost) (i slot id : Z) : LGMPHost :=
  let addr := msg_addr (hdr_queues (host_header host) i) slot in
  let msg := rg_messages (host_mem host) addr in
  let msg := set_pendingSubs msg (Z.land (msg_pendingSubs msg) (not32 (bit id))) in
  set_host_mem host (set_message (host_mem host) addr msg).

(** The head message of queue [i]: its address and its content. *)
Definition head_addr (host : LGMPHost) (i : Z) : Z :=
  msg_addr (hdr_queues (host_header host) i) (q_start (host_queues host i)).

Definition head_message (host : LGMPHost) (i : Z) : LGMPHeaderMessage :=
  rg_messages (host_mem host) (head_addr host i).

(** The two masks of a subscriber word, read per subscriber. *)
Definition subscribed (subs id : Z) : bool := Z.testbit (LGMP_SUBS_ON subs) id.
Definition flagged_bad (subs id : Z) : bool := Z.testbit (LGMP_SUBS_BAD subs) id.

(** The recipients [lgmpHostPost] computes from a subscriber word:
    subscribed and not flagged bad. *)
Definition recipients (subs : Z) : Z :=
  Z.land (LGMP_SUBS_ON subs) (not32 (LGMP_SUBS_BAD subs)).

(** The shared descriptor a queue handle [qi] refers to. *)
Definition descriptor (host : LGMPHost) (qi : Z) : LGMPHeaderQueue :=
  hdr_queues (host_header host) (q_index (host_queues host qi)).

(** One call of the host or one action of a subscriber.  The arguments have
    the range of their C types; a queue handle is one [lgmpHostAddQueue]
    returned. *)
Inductive step : LGMPHost -> LGMPHost -> Prop :=
| step_addQueue host queueID numMessages clock :
    0 <= numMessages < 2 ^ 32 ->
    step host (snd (lgmpHostAddQueue host queueID numMessages clock))
| step_memAlloc host size malloc_ok result :
    0 <= size < 2 ^ 32 ->
    step host (snd (lgmpHostMemAlloc host size malloc_ok result))
| step_post host qi udata payload clock :
    0 <= qi < hdr_numQueues (host_header host) ->
    step host (snd (lgmpHostPost host qi udata payload clock))
| step_process host now status host' :
    lgmpHostProcess host now = Some (status, host') ->
    step host host'
| step_subscribe host i id :
    0 <= i < hdr_numQueues (host_header host) ->
    0 <= id < 32 ->
    step host (client_subscribe host i id)
| step_ack host i slot id :
    0 <= i < hdr_numQueues (host_header host) ->
    0 <= slot < hq_numMessages (hdr_queues (host_header host) i) ->
    0 <= id < 32 ->
    step host (client_ack host i slot id).

(** The hosts a successful [lgmpHostInit] and any number of steps lead to. *)
Inductive reachable : LGMPHost -> Prop :=
| reach_init mem size clock alloc rands host :
    0 <= size < 2 ^ 64 ->
    lgmpHostInit mem size clock alloc rands = Some (LGMP_OK, Some host) ->
    reachable host
| reach_step host host' :
    reachable host -> step host host' -> reachable host'.

(** Region accounting: [nextFree + avail == size], within [size_t]. *)
Definition accounting (host : LGMPHost) : Prop :=
  host_nextFree host + host_avail host = host_size host /\
  0 <= host_nextFree host /\ 0 <= host_avail host /\ host_size host < 2 ^ 64.

(** The fields of the host no tick, post or subscriber touches. *)
Definition bookkeeping (host : LGMPHost) : Z * Z * Z * bool :=
  (host_size host, host_avail host, host_nextFree host, host_started host).

(** What one step does to the allocator: it moves [nextFree] up and [avail]
    down by the same amount [n]. *)
Definition bumped (host host' : LGMPHost) (n : Z) : Prop :=
  host_size host' = host_size host /\
  host_nextFree host' = host_nextFree host + n /\
  host_avail host' = host_avail host - n /\
  host_started host' = host_started host.

(** What the tick works on for queue [i]: the host queue, the shared
    descriptor, and the message slot at address [a]. *)
Definition view (host : LGMPHost) (i a : Z) : LGMPHQueue * LGMPHeaderQueue * LGMPHeaderMessage :=
  (host_queues host i, hdr_queues (host_header host) i, rg_messages (host_mem host) a).

(** The critical section on queue [i] of [host]. *)
Definition tick_at (now : Z) (host : LGMPHost) (i : Z)
    : LGMPHQueue * LGMPHeaderQueue * LGMPHeaderMessage :=
  process_locked now (host_queues host i) (hdr_queues (host_header host) i)
                 (head_message host i).

(** The three parts of the critical section, named for the statements below:
    the lagging recipients of a pending mask, the completion of the head
    message, and the reaping of the subscriber word. *)
Definition lagging (subs pend : Z) : Z := Z.land pend (not32 (LGMP_SUBS_BAD subs)).

Definition complete (now : Z) (queue : LGMPHQueue) (hq : LGMPHeaderQueue) : LGMPHQueue :=
  let queue := set_q_start queue (advance (q_start queue) (hq_numMessages hq)) in
  let count := q_count queue in
  let queue := set_q_count queue (u32 (count - 1)) in
  if negb (count =? 0)
  then set_q_msgTimeout queue (u64 (now + LGMP_MAX_MESSAGE_AGE))
  else queue.

Definition reaped (subs now : Z) (timeout : Z -> Z) : Z :=
  if negb (LGMP_SUBS_ON subs =? 0)
  then LGMP_SUBS_CLEAR subs (reap_mask subs now timeout)
  else subs.

(** The queues created so far: their lock is free between the calls and
    each handle holds its own index. *)
Definition queues_ok (host : LGMPHost) : Prop :=
  0 <= hdr_numQueues (host_header host) /\
  forall i, 0 <= i < hdr_numQueues (host_header host) ->
    hq_lock (hdr_queues (host_header host) i) = false /\
    q_index (host_queues host i) = i.

(** The other queues with an outstanding message have their head slot at
    another address than queue [i] has. *)
Definition heads_apart (host : LGMPHost) (i : Z) : Prop :=
  forall j, 0 <= j < hdr_numQueues (host_header host) -> j <> i ->
    q_count (host_queues host j) <> 0 -> head_addr host j <> head_addr host i.

(** Any number of steps. *)
Inductive steps : LGMPHost -> LGMPHost -> Prop :=
| steps_refl host : steps host host
| steps_step host host' host'' :
    steps host host' -> step host' host'' -> steps host host''.

(** The end of the slot array of a queue: the first byte after its
    [numMessages] slots. *)
Definition slots_end (hq : LGMPHeaderQueue) : Z :=
  hq_messagesOffset hq + sizeof_LGMPHeaderMessage * hq_numMessages hq.

(** The slot arrays of the queues created so far lie after the header and
    below [nextFree], in the order of creation, one after the other. *)
Definition arrays_ok (host : LGMPHost) : Prop :=
  forall i, 0 <= i < hdr_numQueues (host_header host) ->
    sizeof_LGMPHeader <= hq_messagesOffset (hdr_queues (host_header host) i) /\
    slots_end (hdr_queues (host_header host) i) <= host_nextFree host /\
    forall j, i < j < hdr_numQueues (host_header host) ->
      slots_end (hdr_queues (host_header host) i)
      <= hq_messagesOffset (hdr_queues (host_header host) j).

(** The cursors of the queues created so far: the shared write cursor mirrors
    the host's, and in a queue with at least one slot the read cursor, the
    count and the write cursor stay below [numMessages], the write cursor
    [count] slots ahead of the read cursor. *)
Definition ring_ok (host : LGMPHost) : Prop :=
  forall i, 0 <= i < hdr_numQueues (host_header host) ->
    0 <= hq_numMessages (hdr_queues (host_header host) i) < 2 ^ 32 /\
    hq_position (hdr_queues (host_header host) i) = q_position (host_queues host i) /\
    (1 <= hq_numMessages (hdr_queues (host_header host) i) ->
     0 <= q_start (host_queues host i) < hq_numMessages (hdr_queues (host_header host) i) /\
     0 <= q_count (host_queues host i) < hq_numMessages (hdr_queues (host_header host) i) /\
     q_position (host_queues host i)
     = (q_start (host_queues host i) + q_count (host_queues host i))
         mod hq_numMessages (hdr_queues (host_header host) i)).

(** Every queue created so far has at least one slot: no requested capacity
    was 0xFFFFFFFF, which [++numMessages] wraps to 0. *)
Definition queues_have_slots (host : LGMPHost) : Prop :=
  forall i, 0 <= i < hdr_numQueues (host_header host) ->
    1 <= hq_numMessages (hdr_queues (host_header host) i).

(** The flagged-bad mask of a subscriber word lies within its subscribed mask. *)
Definition bad_within_subscribed (subs : Z) : Prop :=
  forall id, 0 <= id < 32 -> flagged_bad subs id = true -> subscribed subs id = true.

End Runs.

(** * A concrete layout and a scenario *)

(** A layout to run the operations on: five queues, a 16-byte message slot
    (four 32-bit fields) and a 128-byte header. *)
#[local] Instance layout16 : Layout := {|
  LGMP_MAX_QUEUES := 5;
  LGMP_PROTOCOL_MAGIC := 0x504d474c;
  LGMP_PROTOCOL_VERSION := 1;
  sizeof_LGMPHeader := 128;
  sizeof_LGMPHeaderMessage := 16;
  sizeof_LGMPHeader_pos := eq_refl;
  sizeof_LGMPHeaderMessage_pos := eq_refl
|}.

Definition blank_queue : LGMPHQueue := mkHQueue 0 0 0 0 0 (fun _ => 0).
Definition blank_hqueue : LGMPHeaderQueue := mkHeaderQueue 0 0 false 0 0 0.
Definition blank_region : Region :=
  mkRegion (mkHeader 0 0 0 0 0 0 (fun _ => blank_hqueue))
           (fun _ => mkMessage 0 0 0 0).
Definition blank_host : LGMPHost :=
  mkHost blank_region 0 0 0 false (fun _ => blank_queue).

(** A host initialised over a zeroed 4096-byte region. *)
Definition host0 : LGMPHost :=
  match lgmpHostInit blank_region 4096 1000 (Some blank_host) [0; 7] with
  | Some (_, Some host) => host
  | _ => blank_host
  end.

(** One queue of requested capacity [n], subscriber 0 subscribed. *)
Definition host_sub0 (n : Z) : LGMPHost :=
  client_subscribe (snd (lgmpHostAddQueue host0 1 n 1000)) 0 0.

Definition payload0 : LGMPMemory := mkMemory 1024 64.

(** [k] messages posted back to back at time [clock]. *)
Fixpoint posts (k : nat) (host : LGMPHost) (clock : Z) : LGMPHost :=
  match k with
  | O => host
  | S k' => posts k' (snd (lgmpHostPost host 0 0 payload0 clock)) clock
  end.

Definition tick (host : LGMPHost) (now : Z) : LGMPHost :=
  match lgmpHostProcess host now with
  | Some (_, host') => host'
  | None => host
  end.

(** The scenario of the stale pending bit: [k] messages are posted to
    subscriber 0 at time 1000; the tick at 2000 flags the subscriber on the
    first message, the tick at 13000 reaps it while it skips the second
    message, and the tick at 14000 meets its pending bit on the third. *)
Definition backlog (k : nat) : LGMPHost := posts k (host_sub0 4) 1000.
Definition flagged (k : nat) : LGMPHost := tick (backlog k) 2000.
Definition unsubscribed (k : nat) : LGMPHost := tick (flagged k) 13000.
Definition stale (k : nat) : LGMPHost := tick (unsubscribed k) 14000.

(** One message posted to subscriber 0, who acknowledges it. *)
Definition acked1 : LGMPHost := client_ack (posts 1 (host_sub0 2) 1000) 0 0 0.

(** A second queue, of requested capacity 2, beside the queue of [host_sub0 4]. *)
Definition host_two : LGMPHost := snd (lgmpHostAddQueue (host_sub0 4) 2 2 1000).



(** * Properties *)

(** ** Words and masks *)

Lemma u32_range x : 0 <= u32 x < 2 ^ 32.
Proof. unfold u32. apply Z.mod_pos_bound. reflexivity. Qed.

Lemma u64_range x : 0 <= u64 x < 2 ^ 64.
Proof. unfold u64. apply Z.mod_pos_bound. reflexivity. Qed.

Lemma u32_small x : 0 <= x < 2 ^ 32 -> u32 x = x.
Proof. intros H. unfold u32. now apply Z.mod_small. Qed.

Lemma u64_small x : 0 <= x < 2 ^ 64 -> u64 x = x.
Proof. intros H. unfold u64. now apply Z.mod_small. Qed.

Lemma testbit_u32 x n :
  0 <= n -> Z.testbit (u32 x) n = (n <? 32) && Z.testbit x n.
Proof.
  intros Hn. unfold u32. destruct (Z.ltb_spec n 32).
  - now rewrite Z.mod_pow2_bits_low.
  - rewrite Z.mod_pow2_bits_high by lia. reflexivity.
Qed.

Lemma testbit_u64 x n :
  0 <= n -> Z.testbit (u64 x) n = (n <? 64) && Z.testbit x n.
Proof.
  intros Hn. unfold u64. destruct (Z.ltb_spec n 64).
  - now rewrite Z.mod_pow2_bits_low.
  - rewrite Z.mod_pow2_bits_high by lia. reflexivity.
Qed.

Lemma testbit_not32 x n :
  0 <= n -> Z.testbit (not32 x) n = (n <? 32) && negb (Z.testbit x n).
Proof.
  intros Hn. unfold not32. rewrite testbit_u32 by assumption.
  now rewrite Z.lnot_spec.
Qed.

Lemma testbit_not64 x n :
  0 <= n -> Z.testbit (not64 x) n = (n <? 64) && negb (Z.testbit x n).
Proof.
  intros Hn. unfold not64. rewrite testbit_u64 by assumption.
  now rewrite Z.lnot_spec.
Qed.

Lemma testbit_bit id n :
  0 <= id -> Z.testbit (bit id) n = (n =? id).
Proof.
  intros Hid. unfold bit. rewrite Z.shiftl_1_l.
  rewrite Z.pow2_bits_eqb by assumption. apply Z.eqb_sym.
Qed.

Lemma land_bit_zero x id :
  0 <= id -> (Z.land x (bit id) =? 0) = negb (Z.testbit x id).
Proof.
  intros Hid. destruct (Z.testbit x id) eqn:Hb; simpl.
  - apply Z.eqb_neq. intros H0.
    assert (Hc : Z.testbit (Z.land x (bit id)) id = true).
    { rewrite Z.land_spec, Hb, testbit_bit, Z.eqb_refl by assumption. reflexivity. }
    rewrite H0, Z.bits_0 in Hc. discriminate.
  - apply Z.eqb_eq. apply Z.bits_inj'. intros n Hn.
    rewrite Z.land_spec, Z.bits_0, testbit_bit by assumption.
    destruct (Z.eqb_spec n id) as [->|_].
    + now rewrite Hb.
    + apply andb_false_r.
Qed.

Lemma in_ids32 id : In id ids32 <-> 0 <= id < 32.
Proof.
  unfold ids32. rewrite in_map_iff. split.
  - intros (k & <- & Hk). apply in_seq in Hk. lia.
  - intros H. exists (Z.to_nat id). split; [lia|]. apply in_seq. lia.
Qed.

Lemma ids32_nonneg id : In id ids32 -> 0 <= id.
Proof. intros H. apply in_ids32 in H. lia. Qed.

Lemma testbit_SUBS_BAD subs n :
  0 <= n -> Z.testbit (LGMP_SUBS_BAD subs) n = (n <? 32) && Z.testbit subs n.
Proof. apply testbit_u32. Qed.

Lemma testbit_SUBS_ON subs n :
  0 <= n -> Z.testbit (LGMP_SUBS_ON subs) n = (n <? 32) && Z.testbit subs (n + 32).
Proof.
  intros Hn. unfold LGMP_SUBS_ON. rewrite testbit_u32 by assumption.
  now rewrite Z.shiftr_spec.
Qed.

(** The bits of the mask the reap loop builds, over any list of ids. *)
Lemma testbit_reap_fold subs now timeout ids : forall acc n,
  0 <= n -> (forall id, In id ids -> 0 <= id) ->
  Z.testbit
    (fold_left
       (fun reap id =>
          if negb (Z.land (LGMP_SUBS_BAD subs) (bit id) =? 0) && (now >? timeout id)
          then Z.lor reap (bit id) else reap) ids acc) n
  = Z.testbit acc n
    || (existsb (Z.eqb n) ids && Z.testbit (LGMP_SUBS_BAD subs) n && (now >? timeout n)).
Proof.
  induction ids as [|id ids IH]; intros acc n Hn Hids; simpl.
  - now rewrite orb_false_r.
  - assert (Hid : 0 <= id) by (apply Hids; now left).
    rewrite IH by (auto; intros; apply Hids; now right).
    rewrite land_bit_zero, negb_involutive by assumption.
    destruct (Z.eqb_spec n id) as [->|Hne]; simpl.
    + destruct (Z.testbit (LGMP_SUBS_BAD subs) id), (now >? timeout id); simpl;
        rewrite ?Z.lor_spec, ?testbit_bit, ?Z.eqb_refl by assumption;
        rewrite ?orb_true_r, ?andb_false_r, ?andb_true_r, ?orb_false_r; reflexivity.
    + destruct (Z.testbit (LGMP_SUBS_BAD subs) id && (now >? timeout id)); try reflexivity.
      rewrite Z.lor_spec, testbit_bit by assumption.
      apply Z.eqb_neq in Hne. now rewrite Hne, orb_false_r.
Qed.

Lemma existsb_ids32 n : existsb (Z.eqb n) ids32 = (0 <=? n) && (n <? 32).
Proof.
  destruct (existsb (Z.eqb n) ids32) eqn:He.
  - apply existsb_exists in He. destruct He as (x & Hx & Hnx).
    apply Z.eqb_eq in Hnx. subst x. apply in_ids32 in Hx.
    symmetry. apply andb_true_iff. split; [apply Z.leb_le | apply Z.ltb_lt]; lia.
  - symmetry. apply not_true_is_false. intros Hc. apply andb_true_iff in Hc.
    destruct Hc as [H0 H1]. apply Z.leb_le in H0. apply Z.ltb_lt in H1.
    assert (Ht : existsb (Z.eqb n) ids32 = true).
    { apply existsb_exists. exists n. split; [apply in_ids32; lia | apply Z.eqb_refl]. }
    congruence.
Qed.

Lemma testbit_reap_mask subs now timeout n :
  0 <= n ->
  Z.testbit (reap_mask subs now timeout) n
  = (n <? 32) && Z.testbit (LGMP_SUBS_BAD subs) n && (now >? timeout n).
Proof.
  intros Hn. unfold reap_mask.
  rewrite testbit_reap_fold by (auto using ids32_nonneg).
  rewrite Z.bits_0, existsb_ids32. simpl.
  assert (H0 : (0 <=? n) = true) by now apply Z.leb_le.
  now rewrite H0.
Qed.

(** The table the flagging loop leaves, over any list of ids. *)
Lemma flag_fold (newBadSubs t : Z) ids : forall (timeout : Z -> Z) id,
  (forall i, In i ids -> 0 <= i) ->
  fold_left
    (fun (tbl : Z -> Z) i => if Z.land newBadSubs (bit i) =? 0 then tbl else upd tbl i t)
    ids timeout id
  = if existsb (Z.eqb id) ids && Z.testbit newBadSubs id then t else timeout id.
Proof.
  induction ids as [|i ids IH]; intros timeout id Hids; simpl.
  - reflexivity.
  - assert (Hi : 0 <= i) by (apply Hids; now left).
    rewrite IH by (intros; apply Hids; now right).
    rewrite land_bit_zero by assumption.
    destruct (Z.eqb_spec id i) as [->|Hne]; simpl.
    + destruct (Z.testbit newBadSubs i) eqn:Hb; simpl.
      * rewrite andb_true_r. unfold upd. rewrite Z.eqb_refl.
        now destruct (existsb (Z.eqb i) ids).
      * now rewrite andb_false_r.
    + destruct (Z.testbit newBadSubs i); simpl; try reflexivity.
      unfold upd. apply Z.eqb_neq in Hne. now rewrite Hne.
Qed.

Lemma flag_timeouts_spec newBadSubs t timeout id :
  flag_timeouts newBadSubs t timeout id
  = if (0 <=? id) && (id <? 32) && Z.testbit newBadSubs id then t else timeout id.
Proof.
  unfold flag_timeouts. rewrite flag_fold by (auto using ids32_nonneg).
  now rewrite existsb_ids32.
Qed.

(** ** Posting *)

Section PostProperties.
Context {L : Layout}.

(** C5.  Posting on a queue whose recipient set (subscribed and not flagged
    bad) is empty returns LGMP_OK and leaves the host and the region as they
    were: count, write cursors, head deadline and every message slot. *)
Theorem post_without_recipients_is_noop :
  forall host qi udata payload clock,
    recipients (hq_subs (descriptor host qi)) = 0 ->
    lgmpHostPost host qi udata payload clock = (Some LGMP_OK, host).
Proof.
  intros host qi udata payload clock Hrec.
  unfold lgmpHostPost. fold (descriptor host qi).
  fold (recipients (hq_subs (descriptor host qi))).
  now rewrite Hrec.
Qed.

(** C4.  Posting on a queue with a recipient whose count equals the slot
    capacity minus one returns LGMP_ERR_QUEUE_FULL and leaves the host and
    the region as they were. *)
Theorem post_on_full_ring_is_rejected :
  forall host qi udata payload clock,
    recipients (hq_subs (descriptor host qi)) <> 0 ->
    0 <= q_count (host_queues host qi) < 2 ^ 32 ->
    q_count (host_queues host qi) = hq_numMessages (descriptor host qi) - 1 ->
    lgmpHostPost host qi udata payload clock = (Some LGMP_ERR_QUEUE_FULL, host).
Proof.
  intros host qi udata payload clock Hrec Hrange Hfull.
  unfold lgmpHostPost. fold (descriptor host qi).
  fold (recipients (hq_subs (descriptor host qi))).
  apply Z.eqb_neq in Hrec. rewrite Hrec.
  rewrite <- Hfull, u32_small by assumption.
  now rewrite Z.eqb_refl.
Qed.

(** C1.  With a recipient and the count strictly below the capacity minus the
    sentinel, the call writes the message into the slot at the write cursor,
    but it returns no status: the path ends without a return statement. *)
Theorem post_success_path_returns_no_status :
  forall host qi udata payload clock,
    recipients (hq_subs (descriptor host qi)) <> 0 ->
    0 <= q_count (host_queues host qi) < hq_numMessages (descriptor host qi) - 1 ->
    hq_numMessages (descriptor host qi) <= 2 ^ 32 ->
    fst (lgmpHostPost host qi udata payload clock) = None /\
    rg_messages (host_mem (snd (lgmpHostPost host qi udata payload clock)))
                (msg_addr (descriptor host qi) (q_position (host_queues host qi)))
    = mkMessage udata (mem_size payload) (mem_offset payload)
                (recipients (hq_subs (descriptor host qi))).
Proof.
  intros host qi udata payload clock Hrec Hcount Hcap.
  unfold lgmpHostPost. fold (descriptor host qi).
  fold (recipients (hq_subs (descriptor host qi))).
  apply Z.eqb_neq in Hrec. rewrite Hrec.
  assert (Hne : (q_count (host_queues host qi)
                 =? u32 (hq_numMessages (descriptor host qi) - 1)) = false).
  { apply Z.eqb_neq. rewrite u32_small; lia. }
  rewrite Hne. simpl. split; [reflexivity|].
  unfold upd. now rewrite Z.eqb_refl.
Qed.

End PostProperties.

Lemma post_without_recipients_is_noop_witness :
  recipients (hq_subs (descriptor (snd (lgmpHostAddQueue host0 1 2 1000)) 0)) = 0 /\
  lgmpHostPost (snd (lgmpHostAddQueue host0 1 2 1000)) 0 5 payload0 1001
  = (Some LGMP_OK, snd (lgmpHostAddQueue host0 1 2 1000)).
Proof.
  split; [reflexivity|].
  apply (post_without_recipients_is_noop
           (snd (lgmpHostAddQueue host0 1 2 1000)) 0 5 payload0 1001).
  reflexivity.
Defined.

Lemma post_on_full_ring_is_rejected_witness :
  q_count (host_queues (posts 2 (host_sub0 2) 1000) 0)
  = hq_numMessages (descriptor (posts 2 (host_sub0 2) 1000) 0) - 1 /\
  lgmpHostPost (posts 2 (host_sub0 2) 1000) 0 5 payload0 1001
  = (Some LGMP_ERR_QUEUE_FULL, posts 2 (host_sub0 2) 1000).
Proof.
  split; [reflexivity|].
  apply (post_on_full_ring_is_rejected (posts 2 (host_sub0 2) 1000) 0 5 payload0 1001).
  - vm_compute. discriminate.
  - vm_compute. split; [discriminate | reflexivity].
  - reflexivity.
Defined.

Lemma post_success_path_returns_no_status_witness :
  fst (lgmpHostPost (host_sub0 2) 0 5 payload0 1001) = None /\
  rg_messages (host_mem (snd (lgmpHostPost (host_sub0 2) 0 5 payload0 1001))) 128
  = mkMessage 5 64 1024 1.
Proof.
  change 128 with (msg_addr (descriptor (host_sub0 2) 0)
                            (q_position (host_queues (host_sub0 2) 0))).
  change (mkMessage 5 64 1024 1)
    with (mkMessage 5 (mem_size payload0) (mem_offset payload0)
                    (recipients (hq_subs (descriptor (host_sub0 2) 0)))).
  apply (post_success_path_returns_no_status (host_sub0 2) 0 5 payload0 1001).
  - vm_compute. discriminate.
  - vm_compute. split; [discriminate | reflexivity].
  - vm_compute. discriminate.
Defined.

(** ** Initialisation *)

Section InitProperties.
Context {L : Layout}.

Lemma pick_sessionID_fresh rands : forall sessionID cur sid,
  pick_sessionID rands sessionID cur = Some sid -> sid <> sessionID.
Proof.
  induction rands as [|r rands IH]; intros sessionID cur sid; simpl;
    destruct (Z.eqb_spec sessionID cur) as [Heq|Hne]; intros H;
    try discriminate; try (injection H as <-; congruence).
  eapply IH; eassumption.
Qed.

(** The loop leaves as soon as [rand()] returns another value than the one
    found in the header. *)
Lemma pick_sessionID_returns rands : forall sessionID cur,
  (exists r, In r rands /\ u32 r <> sessionID) ->
  exists sid, pick_sessionID rands sessionID cur = Some sid.
Proof.
  induction rands as [|r rands IH]; intros sessionID cur (r0 & Hin & Hr0); simpl.
  - destruct Hin.
  - destruct (Z.eqb_spec sessionID cur) as [Heq|Hne]; [|eauto].
    destruct Hin as [->|Hin].
    + destruct rands; simpl; destruct (Z.eqb_spec sessionID (u32 r0)); eauto; congruence.
    + apply IH. eauto.
Qed.

(** X21.  [lgmpHostInit] returns LGMP_OK and a host when the clock works, the
    region holds the header, [malloc] succeeds and [rand()] eventually
    returns another value than the sessionID found in the region. *)
Lemma lgmpHostInit_returns mem size clock host0 rands :
  clock <> 0 -> sizeof_LGMPHeader <= size ->
  (exists r, In r rands /\ u32 r <> hdr_sessionID (rg_header mem)) ->
  exists host, lgmpHostInit mem size clock (Some host0) rands = Some (LGMP_OK, Some host).
Proof.
  intros Hclock Hsize Hrand. unfold lgmpHostInit.
  pose proof sizeof_LGMPHeader_pos as Hpos.
  destruct (Z.eqb_spec size 0); [lia|].
  destruct (Z.eqb_spec clock 0); [contradiction|].
  destruct (Z.ltb_spec size sizeof_LGMPHeader); [lia|].
  destruct (pick_sessionID_returns rands _ (hdr_sessionID (rg_header mem)) Hrand)
    as [sid ->].
  eauto.
Qed.

(** What a successful [lgmpHostInit] leaves in the host. *)
Lemma lgmpHostInit_ok mem size clock alloc rands host :
  lgmpHostInit mem size clock alloc rands = Some (LGMP_OK, Some host) ->
  sizeof_LGMPHeader <= size /\
  host_size host = size /\
  host_avail host = usize (size - sizeof_LGMPHeader) /\
  host_nextFree host = sizeof_LGMPHeader /\
  host_started host = false /\
  hdr_sessionID (host_header host) <> hdr_sessionID (rg_header mem).
Proof.
  unfold lgmpHostInit.
  destruct (size =? 0); [discriminate|].
  destruct (clock =? 0); [discriminate|].
  destruct (Z.ltb_spec size sizeof_LGMPHeader) as [Hlt|Hge]; [discriminate|].
  destruct alloc as [h|]; [|discriminate].
  destruct (pick_sessionID rands _ _) as [sid|] eqn:Hsid; [|discriminate].
  intros Hret. injection Hret as <-. simpl.
  repeat split; try assumption.
  eapply pick_sessionID_fresh; eassumption.
Qed.

(** C7.  After a successful [lgmpHostInit] the sessionID in the header differs
    from the one the region held before the call, whatever that was (also a
    value an earlier initialisation of the same region left there). *)
Theorem init_changes_sessionID :
  forall mem size clock alloc rands host,
    lgmpHostInit mem size clock alloc rands = Some (LGMP_OK, Some host) ->
    hdr_sessionID (host_header host) <> hdr_sessionID (rg_header mem).
Proof.
  intros mem size clock alloc rands host H.
  apply lgmpHostInit_ok in H. tauto.
Qed.

End InitProperties.

Lemma init_changes_sessionID_witness :
  lgmpHostInit blank_region 4096 1000 (Some blank_host) [0; 7]
  = Some (LGMP_OK, Some host0) /\
  hdr_sessionID (host_header host0) <> hdr_sessionID (rg_header blank_region).
Proof.
  split; [reflexivity|].
  apply (init_changes_sessionID blank_region 4096 1000 (Some blank_host) [0; 7] host0).
  reflexivity.
Defined.

(** ** Invariants of the runs *)

Section RunProperties.
Context {L : Layout}.

Lemma process_queue_bookkeeping now host i host' :
  process_queue now host i = Some host' -> bookkeeping host' = bookkeeping host.
Proof.
  unfold process_queue.
  destruct (q_count (host_queues host i) =? 0); [now intros [= <-]|].
  destruct (hq_lock _); [discriminate|].
  destruct (process_locked _ _ _ _) as [[queue hq] msg].
  now intros [= <-].
Qed.

Lemma process_queues_bookkeeping now idxs : forall host host',
  process_queues now host idxs = Some host' -> bookkeeping host' = bookkeeping host.
Proof.
  induction idxs as [|i idxs IH]; intros host host'; simpl.
  - now intros [= <-].
  - destruct (process_queue now host i) as [host1|] eqn:H1; [|discriminate].
    intros H. apply IH in H. apply process_queue_bookkeeping in H1. congruence.
Qed.

Lemma lgmpHostProcess_bookkeeping host now status host' :
  lgmpHostProcess host now = Some (status, host') ->
  bookkeeping host' = bookkeeping host.
Proof.
  unfold lgmpHostProcess.
  destruct (process_queues _ _ _) as [host1|] eqn:H1; [|discriminate].
  intros [= _ <-]. now apply process_queues_bookkeeping in H1.
Qed.

Lemma lgmpHostPost_bookkeeping host qi udata payload clock :
  bookkeeping (snd (lgmpHostPost host qi udata payload clock)) = bookkeeping host.
Proof.
  unfold lgmpHostPost.
  destruct (_ =? 0); [reflexivity|].
  destruct (_ =? _); reflexivity.
Qed.

Lemma bookkeeping_bumped host host' :
  bookkeeping host' = bookkeeping host -> bumped host host' 0.
Proof.
  unfold bookkeeping, bumped. intros [= -> -> -> ->]. repeat split; lia.
Qed.

Lemma bump_bumped host n :
  accounting host -> 0 <= n <= host_avail host -> bumped host (bump host n) n.
Proof.
  intros (Hsum & Hnext & Havail & Hsize) Hn. unfold bumped, bump, usize; simpl.
  rewrite !u64_small by lia. repeat split.
Qed.

Lemma step_bumped host host' :
  accounting host -> step host host' -> exists n, 0 <= n /\ bumped host host' n.
Proof.
  intros Hacc Hstep. destruct Hstep as
    [host queueID numMessages clock Hn | host size malloc_ok result Hsize
    | host qi udata payload clock Hqi | host now status host' Hproc
    | host i id Hi Hid | host i slot id Hi Hslot Hid].
  - unfold lgmpHostAddQueue.
    destruct (host_started host); [exists 0; split; [lia|now apply bookkeeping_bumped]|].
    destruct (_ =? LGMP_MAX_QUEUES); [exists 0; split; [lia|now apply bookkeeping_bumped]|].
    destruct (Z.ltb_spec (host_avail host)
                (usize (sizeof_LGMPHeaderMessage * u32 (numMessages + 1)))) as [Hlt|Hge];
      [exists 0; split; [lia|now apply bookkeeping_bumped]|].
    set (needed := usize (sizeof_LGMPHeaderMessage * u32 (numMessages + 1))) in *.
    assert (Hneeded : 0 <= needed) by apply u64_range.
    exists needed. split; [assumption|]. cbn [snd].
    match goal with |- bumped _ (bump ?h _) _ =>
      assert (Hb : bumped h (bump h needed) needed)
        by (apply bump_bumped; [exact Hacc | simpl; lia]) end.
    exact Hb.
  - unfold lgmpHostMemAlloc.
    destruct (Z.gtb_spec size (host_avail host)) as [Hgt|Hle];
      [exists 0; split; [lia|now apply bookkeeping_bumped]|].
    destruct malloc_ok; simpl;
      [|exists 0; split; [lia|now apply bookkeeping_bumped]].
    exists size. split; [lia|]. apply bump_bumped; [assumption|lia].
  - exists 0. split; [lia|]. apply bookkeeping_bumped, lgmpHostPost_bookkeeping.
  - exists 0. split; [lia|]. eapply bookkeeping_bumped, lgmpHostProcess_bookkeeping.
    eassumption.
  - exists 0. split; [lia|]. now apply bookkeeping_bumped.
  - exists 0. split; [lia|]. now apply bookkeeping_bumped.
Qed.

Lemma bumped_accounting host host' n :
  accounting host -> 0 <= n -> bumped host host' n ->
  0 <= host_avail host' -> accounting host'.
Proof.
  unfold accounting, bumped. intros (? & ? & ? & ?) ? (-> & -> & -> & _) ?.
  repeat split; lia.
Qed.

Lemma step_avail_nonneg host host' :
  accounting host -> step host host' -> 0 <= host_avail host'.
Proof.
  intros Hacc Hstep. pose proof Hacc as (_ & _ & Havail & _).
  assert (Hkeep : forall h, bookkeeping h = bookkeeping host -> 0 <= host_avail h).
  { unfold bookkeeping. intros h [= _ -> _ _]. assumption. }
  destruct Hstep as
    [host queueID numMessages clock Hn | host size malloc_ok result Hsize
    | host qi udata payload clock Hqi | host now status host' Hproc
    | host i id Hi Hid | host i slot id Hi Hslot Hid].
  - unfold lgmpHostAddQueue.
    destruct (host_started host); [assumption|].
    destruct (_ =? LGMP_MAX_QUEUES); [assumption|].
    destruct (_ <? _); [assumption|]. apply u64_range.
  - unfold lgmpHostMemAlloc.
    destruct (_ >? _); [assumption|]. destruct malloc_ok; simpl; [|assumption].
    apply u64_range.
  - apply Hkeep, lgmpHostPost_bookkeeping.
  - eapply Hkeep, lgmpHostProcess_bookkeeping. eassumption.
  - assumption.
  - assumption.
Qed.

Lemma reachable_accounting host : reachable host -> accounting host.
Proof.
  induction 1 as [mem size clock alloc rands host Hsize Hinit | host host' _ IH Hstep].
  - apply lgmpHostInit_ok in Hinit.
    destruct Hinit as (Hle & Hsz & Havail & Hnext & _ & _).
    pose proof sizeof_LGMPHeader_pos as Hpos.
    unfold accounting. rewrite Hsz, Havail, Hnext. unfold usize.
    rewrite u64_small by lia. repeat split; lia.
  - destruct (step_bumped _ _ IH Hstep) as (n & Hn & Hb).
    eapply bumped_accounting; eauto using step_avail_nonneg.
Qed.

Lemma reachable_not_started host : reachable host -> host_started host = false.
Proof.
  induction 1 as [mem size clock alloc rands host Hsize Hinit | host host' Hreach IH Hstep].
  - apply lgmpHostInit_ok in Hinit. tauto.
  - destruct (step_bumped _ _ (reachable_accounting _ Hreach) Hstep) as (n & _ & Hb).
    destruct Hb as (_ & _ & _ & ->). assumption.
Qed.

(** The amount [lgmpHostAddQueue] takes from the region: the slots of the
    queue, the end marker included. *)
Lemma lgmpHostAddQueue_accounting host queueID numMessages clock status res host' :
  accounting host ->
  lgmpHostAddQueue host queueID numMessages clock = (status, res, host') ->
  (status = LGMP_OK /\
   bumped host host' (usize (sizeof_LGMPHeaderMessage * u32 (numMessages + 1))))
  \/ (status <> LGMP_OK /\ host' = host).
Proof.
  intros Hacc. unfold lgmpHostAddQueue.
  destruct (host_started host);
    [intros [= <- _ <-]; right; split; [discriminate | reflexivity]|].
  destruct (_ =? LGMP_MAX_QUEUES);
    [intros [= <- _ <-]; right; split; [discriminate | reflexivity]|].
  destruct (Z.ltb_spec (host_avail host)
              (usize (sizeof_LGMPHeaderMessage * u32 (numMessages + 1)))) as [Hlt|Hge];
    [intros [= <- _ <-]; right; split; [discriminate | reflexivity]|].
  intros [= <- _ <-]. left. split; [reflexivity|].
  set (needed := usize (sizeof_LGMPHeaderMessage * u32 (numMessages + 1))) in *.
  assert (Hneeded : 0 <= needed) by apply u64_range.
  match goal with |- bumped _ (bump ?h _) _ =>
    assert (Hb : bumped h (bump h needed) needed)
      by (apply bump_bumped; [exact Hacc | simpl; lia]) end.
  exact Hb.
Qed.

(** The amount [lgmpHostMemAlloc] takes from the region: the requested size. *)
Lemma lgmpHostMemAlloc_accounting host size malloc_ok result status res host' :
  accounting host -> 0 <= size ->
  lgmpHostMemAlloc host size malloc_ok result = (status, res, host') ->
  (status = LGMP_OK /\ bumped host host' size)
  \/ (status <> LGMP_OK /\ host' = host).
Proof.
  intros Hacc Hsize. unfold lgmpHostMemAlloc.
  destruct (Z.gtb_spec size (host_avail host)) as [Hgt|Hle];
    [intros [= <- _ <-]; right; split; [discriminate | reflexivity]|].
  destruct malloc_ok; cbn [negb];
    [|intros [= <- _ <-]; right; split; [discriminate | reflexivity]].
  intros [= <- _ <-]. left. split; [reflexivity|].
  apply bump_bumped; [assumption | lia].
Qed.

(** C6.  In every host reached from a successful [lgmpHostInit],
    [nextFree + avail = size].  Every [lgmpHostAddQueue] and every
    [lgmpHostMemAlloc] keeps the equation: a successful call moves [nextFree]
    up and [avail] down by exactly the allocated amount (the bytes of the
    slots, respectively the requested size), a failed call moves neither.
    No other step moves them in the reclaiming direction either. *)
Theorem region_accounting_invariant :
  forall host,
    reachable host ->
    host_nextFree host + host_avail host = host_size host /\
    (forall queueID numMessages clock status res host',
       lgmpHostAddQueue host queueID numMessages clock = (status, res, host') ->
       host_nextFree host' + host_avail host' = host_size host' /\
       host_size host' = host_size host /\
       (status = LGMP_OK ->
        0 <= usize (sizeof_LGMPHeaderMessage * u32 (numMessages + 1)) /\
        host_nextFree host'
        = host_nextFree host + usize (sizeof_LGMPHeaderMessage * u32 (numMessages + 1)) /\
        host_avail host'
        = host_avail host - usize (sizeof_LGMPHeaderMessage * u32 (numMessages + 1))) /\
       (status <> LGMP_OK ->
        host_nextFree host' = host_nextFree host /\
        host_avail host' = host_avail host)) /\
    (forall size malloc_ok result status res host',
       0 <= size < 2 ^ 32 ->
       lgmpHostMemAlloc host size malloc_ok result = (status, res, host') ->
       host_nextFree host' + host_avail host' = host_size host' /\
       host_size host' = host_size host /\
       (status = LGMP_OK ->
        host_nextFree host' = host_nextFree host + size /\
        host_avail host' = host_avail host - size) /\
       (status <> LGMP_OK ->
        host_nextFree host' = host_nextFree host /\
        host_avail host' = host_avail host)) /\
    (forall host',
       step host host' ->
       host_nextFree host' + host_avail host' = host_size host' /\
       exists n, 0 <= n /\
                 host_nextFree host' = host_nextFree host + n /\
                 host_avail host' = host_avail host - n).
Proof.
  intros host Hreach. pose proof (reachable_accounting _ Hreach) as Hacc.
  split; [apply Hacc|]. split; [|split].
  - intros queueID numMessages clock status res host' Hadd.
    destruct Hacc as (Hsum & Hnext & Havail & Hsize).
    destruct (lgmpHostAddQueue_accounting _ _ _ _ _ _ _
                (conj Hsum (conj Hnext (conj Havail Hsize))) Hadd)
      as [(-> & Hsz & Hn & Ha & _) | (Hst & ->)].
    + pose proof (u64_range (sizeof_LGMPHeaderMessage * u32 (numMessages + 1))) as Hr.
      unfold usize in *.
      repeat split; try lia; try (intros; lia); try (exfalso; congruence).
    + repeat split; try assumption; try reflexivity; try (exfalso; congruence);
        try (intros Hc; contradiction).
  - intros size malloc_ok result status res host' Hrange Halloc.
    destruct Hacc as (Hsum & Hnext & Havail & Hsize).
    destruct (lgmpHostMemAlloc_accounting _ _ _ _ _ _ _
                (conj Hsum (conj Hnext (conj Havail Hsize))) (proj1 Hrange) Halloc)
      as [(-> & Hsz & Hn & Ha & _) | (Hst & ->)].
    + repeat split; try lia; try (intros; lia); try (exfalso; congruence).
    + repeat split; try assumption; try reflexivity; try (exfalso; congruence);
        try (intros Hc; contradiction).
  - intros host' Hstep. split.
    + apply (reachable_accounting host'). eapply reach_step; eassumption.
    + destruct (step_bumped _ _ Hacc Hstep) as (n & Hn & _ & Hnext & Havail & _).
      eauto.
Qed.

(** C10.  In every host reached from a successful [lgmpHostInit] the started
    flag is false: no call sets it, and [lgmpHostFree] leaves no host at all.
    So [lgmpHostAddQueue] never returns LGMP_ERR_HOST_STARTED. *)
Theorem started_flag_never_set :
  forall host,
    reachable host ->
    host_started host = false /\
    lgmpHostFree (Some host) = None /\
    forall queueID numMessages clock,
      fst (fst (lgmpHostAddQueue host queueID numMessages clock))
      <> LGMP_ERR_HOST_STARTED.
Proof.
  intros host Hreach. pose proof (reachable_not_started _ Hreach) as Hst.
  split; [assumption|]. split; [reflexivity|].
  intros queueID numMessages clock. unfold lgmpHostAddQueue. rewrite Hst.
  destruct (_ =? LGMP_MAX_QUEUES); [discriminate|].
  destruct (_ <? _); discriminate.
Qed.

End RunProperties.

Lemma host0_reachable : reachable host0.
Proof.
  apply (reach_init blank_region 4096 1000 (Some blank_host) [0; 7]);
    [lia | reflexivity].
Defined.

Lemma started_flag_never_set_witness :
  reachable host0 /\
  host_started host0 = false /\
  lgmpHostFree (Some host0) = None /\
  forall queueID numMessages clock,
    fst (fst (lgmpHostAddQueue host0 queueID numMessages clock))
    <> LGMP_ERR_HOST_STARTED.
Proof.
  split; [exact host0_reachable|].
  exact (started_flag_never_set host0 host0_reachable).
Defined.

(** ** The maintenance tick, queue by queue *)

Section TickFrame.
Context {L : Layout}.

(** Processing queue [j] leaves the other queues and the other slots alone. *)
Lemma process_queue_frame now host j host1 :
  process_queue now host j = Some host1 ->
  forall k a,
    k <> j ->
    (q_count (host_queues host j) <> 0 -> head_addr host j <> a) ->
    view host1 k a = view host k a.
Proof.
  unfold process_queue. intros H k a Hk Ha.
  destruct (Z.eqb_spec (q_count (host_queues host j)) 0) as [Hz|Hnz];
    [now injection H as <-|].
  destruct (hq_lock _); [discriminate|].
  destruct (process_locked _ _ _ _) as [[queue hq] msg].
  injection H as <-. unfold view, host_header. simpl. unfold upd.
  apply Z.eqb_neq in Hk. rewrite Hk.
  specialize (Ha Hnz). unfold head_addr, host_header in Ha.
  assert (Hne : (a =? msg_addr (hdr_queues (rg_header (host_mem host)) j)
                               (q_start (host_queues host j))) = false)
    by (apply Z.eqb_neq; congruence).
  now rewrite Hne.
Qed.

(** Processing queue [i] runs the critical section on its own view. *)
Lemma process_queue_own now host i host1 :
  process_queue now host i = Some host1 ->
  q_count (host_queues host i) <> 0 ->
  view host1 i (head_addr host i) = tick_at now host i.
Proof.
  unfold process_queue, tick_at, head_message, head_addr. intros H Hnz.
  apply Z.eqb_neq in Hnz. rewrite Hnz in H.
  destruct (hq_lock _); [discriminate|].
  destruct (process_locked _ _ _ _) as [[queue hq] msg].
  injection H as <-. unfold view, host_header. simpl. unfold upd.
  now rewrite !Z.eqb_refl.
Qed.

Lemma process_queue_others now host j host1 k :
  process_queue now host j = Some host1 -> k <> j ->
  head_addr host1 k = head_addr host k /\
  q_count (host_queues host1 k) = q_count (host_queues host k).
Proof.
  unfold process_queue. intros H Hk.
  destruct (q_count (host_queues host j) =? 0); [now injection H as <-|].
  destruct (hq_lock _); [discriminate|].
  destruct (process_locked _ _ _ _) as [[queue hq] msg].
  injection H as <-. unfold head_addr, host_header. simpl. unfold upd.
  apply Z.eqb_neq in Hk. now rewrite Hk.
Qed.

Lemma process_queues_frame now idxs : forall host host' i a,
  process_queues now host idxs = Some host' ->
  NoDup idxs -> ~ In i idxs ->
  (forall j, In j idxs -> q_count (host_queues host j) <> 0 -> head_addr host j <> a) ->
  view host' i a = view host i a.
Proof.
  induction idxs as [|j idxs IH]; intros host host' i a H Hnd Hni Ha; simpl in H.
  - now injection H as <-.
  - destruct (process_queue now host j) as [host1|] eqn:H1; [|discriminate].
    inversion Hnd as [|? ? Hj Hnd']; subst.
    rewrite (IH host1 host' i a H Hnd').
    + eapply process_queue_frame; eauto.
      * intros ->. apply Hni. now left.
      * apply Ha. now left.
    + intros Hin. apply Hni. now right.
    + intros k Hk. assert (Hkj : k <> j) by (intros ->; contradiction).
      destruct (process_queue_others _ _ _ _ k H1 Hkj) as [-> ->].
      apply Ha. now right.
Qed.

Lemma process_queues_at now idxs : forall host host' i,
  process_queues now host idxs = Some host' ->
  NoDup idxs -> In i idxs ->
  q_count (host_queues host i) <> 0 ->
  (forall j, In j idxs -> j <> i -> q_count (host_queues host j) <> 0 ->
             head_addr host j <> head_addr host i) ->
  view host' i (head_addr host i) = tick_at now host i.
Proof.
  induction idxs as [|j idxs IH]; intros host host' i H Hnd Hin Hnz Hapart;
    simpl in H; [destruct Hin|].
  destruct (process_queue now host j) as [host1|] eqn:H1; [|discriminate].
  inversion Hnd as [|? ? Hj Hnd']; subst.
  destruct (Z.eq_dec j i) as [->|Hji].
  - rewrite (process_queues_frame _ _ _ _ _ _ H Hnd' Hj).
    + now apply process_queue_own.
    + intros k Hk. assert (Hki : k <> i) by (intros ->; contradiction).
      destruct (process_queue_others _ _ _ _ k H1 Hki) as [-> ->].
      intros Hc. apply Hapart; auto. now right.
  - destruct Hin as [->|Hin]; [contradiction|].
    assert (Hi : i <> j) by congruence.
    destruct (process_queue_others _ _ _ _ i H1 Hi) as [Hhead Hcount].
    assert (Hview : view host1 i (head_addr host i) = view host i (head_addr host i)).
    { eapply process_queue_frame; eauto. intros Hc. apply Hapart; auto. now left. }
    rewrite <- Hhead.
    rewrite (IH host1 host' i H Hnd' Hin).
    + unfold tick_at, head_message. rewrite Hhead.
      unfold view in Hview. injection Hview as -> -> ->. reflexivity.
    + now rewrite Hcount.
    + intros k Hk Hki. assert (Hkj : k <> j) by (intros ->; contradiction).
      destruct (process_queue_others _ _ _ _ k H1 Hkj) as [-> ->].
      rewrite Hhead. apply Hapart; auto. now right.
Qed.

Lemma in_indices n i : In i (indices n) <-> 0 <= i < n.
Proof.
  unfold indices. rewrite in_map_iff. split.
  - intros (k & <- & Hk). apply in_seq in Hk. lia.
  - intros H. exists (Z.to_nat i). split; [lia|]. apply in_seq. lia.
Qed.

Lemma NoDup_indices n : NoDup (indices n).
Proof.
  unfold indices. generalize (seq_NoDup (Z.to_nat n) 0).
  generalize (seq 0 (Z.to_nat n)). intros l Hl.
  induction Hl as [|x l Hx Hl IH]; simpl; constructor; [|assumption].
  rewrite in_map_iff. intros (y & Hy & Hin).
  apply Nat2Z.inj in Hy. now subst y.
Qed.

(** A tick that returns has run the critical section of queue [i] on the
    state the tick started from, when the queue has an outstanding message
    and no other queue's head slot lies at the same address. *)
Lemma lgmpHostProcess_at host now status host' i :
  lgmpHostProcess host now = Some (status, host') ->
  0 <= i < hdr_numQueues (host_header host) ->
  q_count (host_queues host i) <> 0 ->
  heads_apart host i ->
  status = LGMP_OK /\ view host' i (head_addr host i) = tick_at now host i.
Proof.
  unfold lgmpHostProcess. intros H Hi Hnz Hapart.
  destruct (process_queues _ _ _) as [host1|] eqn:H1; [|discriminate].
  injection H as <- <-. split; [reflexivity|].
  apply (process_queues_at _ _ _ _ i) in H1.
  - exact H1.
  - apply NoDup_indices.
  - apply in_indices. exact Hi.
  - exact Hnz.
  - intros j Hj Hji. apply in_indices in Hj. apply Hapart; assumption.
Qed.

End TickFrame.

(** ** The critical section, case by case *)

Section CriticalSection.
Context {L : Layout}.

(** The head message has a lagging recipient and its deadline has passed. *)
Lemma process_locked_expired now queue hq msg :
  lagging (hq_subs hq) (msg_pendingSubs msg) <> 0 ->
  now > q_msgTimeout queue ->
  let lag := lagging (hq_subs hq) (msg_pendingSubs msg) in
  let timeout :=
    flag_timeouts lag (u64 (now + LGMP_MAX_QUEUE_TIMEOUT)) (q_timeout queue) in
  process_locked now queue hq msg
  = (complete now (set_q_timeout queue timeout) hq,
     set_subs_unlock hq (reaped (LGMP_SUBS_OR_BAD (hq_subs hq) lag) now timeout),
     set_pendingSubs msg 0).
Proof.
  intros Hlag Hnow. unfold process_locked, lagging in *. cbv zeta.
  apply Z.eqb_neq in Hlag. rewrite !Hlag.
  assert (Hgt : (now >? q_msgTimeout queue) = true) by (apply Z.gtb_lt; lia).
  rewrite Hgt. cbn [negb andb Z.land Z.eqb].
  unfold complete, reaped. cbn [q_count set_q_start set_q_timeout].
  destruct (negb (q_count _ =? 0)); reflexivity.
Qed.

(** No recipient that is not flagged bad is pending. *)
Lemma process_locked_acked now queue hq msg :
  lagging (hq_subs hq) (msg_pendingSubs msg) = 0 ->
  process_locked now queue hq msg
  = (complete now queue hq,
     set_subs_unlock hq (reaped (hq_subs hq) now (q_timeout queue)),
     msg).
Proof.
  intros Hlag. unfold process_locked, lagging in *. cbv zeta.
  rewrite Hlag. cbn [Z.eqb negb andb]. cbv beta iota.
  rewrite Hlag. cbn [Z.eqb].
  unfold complete, reaped. cbn [q_count set_q_start].
  destruct (negb (q_count _ =? 0)); reflexivity.
Qed.

(** A recipient is pending and the deadline has not passed. *)
Lemma process_locked_waiting now queue hq msg :
  lagging (hq_subs hq) (msg_pendingSubs msg) <> 0 ->
  now <= q_msgTimeout queue ->
  process_locked now queue hq msg
  = (queue, set_subs_unlock hq (reaped (hq_subs hq) now (q_timeout queue)), msg).
Proof.
  intros Hlag Hnow. unfold process_locked, lagging in *. cbv zeta.
  apply Z.eqb_neq in Hlag. rewrite !Hlag.
  assert (Hgt : (now >? q_msgTimeout queue) = false) by (rewrite Z.gtb_ltb; apply Z.ltb_ge; lia).
  rewrite Hgt. cbn [negb andb]. cbv beta iota. rewrite Hlag. reflexivity.
Qed.

Lemma q_timeout_complete now queue hq :
  q_timeout (complete now queue hq) = q_timeout queue.
Proof. unfold complete. cbn. destruct (negb _); reflexivity. Qed.

Lemma complete_fields now queue hq :
  q_count queue <> 0 ->
  q_start (complete now queue hq) = advance (q_start queue) (hq_numMessages hq) /\
  q_count (complete now queue hq) = u32 (q_count queue - 1) /\
  q_msgTimeout (complete now queue hq) = u64 (now + LGMP_MAX_MESSAGE_AGE).
Proof.
  intros Hnz. unfold complete. cbn.
  apply Z.eqb_neq in Hnz. rewrite Hnz. cbn. repeat split.
Qed.

(** The lagging recipients are 32-bit, pending and not flagged bad. *)
Lemma testbit_lagging subs pend n :
  0 <= n ->
  Z.testbit (lagging subs pend) n
  = Z.testbit pend n && ((n <? 32) && negb (Z.testbit (LGMP_SUBS_BAD subs) n)).
Proof.
  intros Hn. unfold lagging. now rewrite Z.land_spec, testbit_not32.
Qed.

Lemma testbit_lagging_high subs pend n :
  32 <= n -> Z.testbit (lagging subs pend) n = false.
Proof.
  intros Hn. rewrite testbit_lagging by lia.
  assert (H : (n <? 32) = false) by (apply Z.ltb_ge; lia).
  rewrite H. apply andb_false_r.
Qed.

Lemma SUBS_ON_OR_BAD subs pend :
  LGMP_SUBS_ON (LGMP_SUBS_OR_BAD subs (lagging subs pend)) = LGMP_SUBS_ON subs.
Proof.
  apply Z.bits_inj'. intros n Hn.
  rewrite !testbit_SUBS_ON by assumption. unfold LGMP_SUBS_OR_BAD.
  rewrite Z.lor_spec, testbit_lagging_high by lia. now rewrite orb_false_r.
Qed.

Lemma testbit_SUBS_CLEAR subs cl n :
  0 <= n < 32 ->
  (forall k, 32 <= k -> Z.testbit cl k = false) ->
  Z.testbit (LGMP_SUBS_CLEAR subs cl) n = Z.testbit subs n && negb (Z.testbit cl n) /\
  Z.testbit (LGMP_SUBS_CLEAR subs cl) (n + 32)
  = Z.testbit subs (n + 32) && negb (Z.testbit cl n).
Proof.
  intros Hn Hcl. unfold LGMP_SUBS_CLEAR.
  rewrite !Z.land_spec, !testbit_not64, !Z.lor_spec, !Z.shiftl_spec by lia.
  replace (n + 32 - 32) with n by lia.
  rewrite (Z.testbit_neg_r cl (n - 32)) by lia.
  rewrite (Hcl (n + 32)) by lia.
  assert (H1 : (n <? 64) = true) by (apply Z.ltb_lt; lia).
  assert (H2 : (n + 32 <? 64) = true) by (apply Z.ltb_lt; lia).
  rewrite H1, H2, orb_false_r. simpl. split; reflexivity.
Qed.

Lemma reap_mask_high subs now timeout k :
  32 <= k -> Z.testbit (reap_mask subs now timeout) k = false.
Proof.
  intros Hk. rewrite testbit_reap_mask by lia.
  assert (H : (k <? 32) = false) by (apply Z.ltb_ge; lia).
  now rewrite H.
Qed.

(** The two masks of a reaped subscriber word, for a subscriber [id]. *)
Lemma reaped_spec subs now timeout id :
  0 <= id < 32 ->
  LGMP_SUBS_ON subs <> 0 ->
  flagged_bad (reaped subs now timeout) id
  = flagged_bad subs id && negb (now >? timeout id) /\
  subscribed (reaped subs now timeout) id
  = subscribed subs id && negb (flagged_bad subs id && (now >? timeout id)).
Proof.
  intros Hid Hon. unfold reaped. apply Z.eqb_neq in Hon. rewrite Hon. cbn [negb].
  unfold flagged_bad, subscribed.
  rewrite !testbit_SUBS_BAD, !testbit_SUBS_ON by lia.
  destruct (testbit_SUBS_CLEAR subs (reap_mask subs now timeout) id Hid
              (reap_mask_high subs now timeout)) as [-> ->].
  rewrite testbit_reap_mask, testbit_SUBS_BAD by lia.
  assert (H : (id <? 32) = true) by (apply Z.ltb_lt; lia).
  rewrite H. cbn [andb].
  split; [|reflexivity].
  destruct (Z.testbit subs id), (now >? timeout id); reflexivity.
Qed.

(** Without a subscribed subscriber the word is stored as it is. *)
Lemma reaped_nobody subs now timeout :
  LGMP_SUBS_ON subs = 0 -> reaped subs now timeout = subs.
Proof. intros H. unfold reaped. now rewrite H. Qed.

Lemma flagged_bad_OR_BAD subs pend id :
  0 <= id < 32 ->
  flagged_bad (LGMP_SUBS_OR_BAD subs (lagging subs pend)) id
  = flagged_bad subs id || Z.testbit (lagging subs pend) id.
Proof.
  intros Hid. unfold flagged_bad, LGMP_SUBS_OR_BAD.
  rewrite !testbit_SUBS_BAD, Z.lor_spec by lia.
  assert (H : (id <? 32) = true) by (apply Z.ltb_lt; lia).
  now rewrite H.
Qed.

End CriticalSection.

(** ** The tick on one queue, whatever the other queues do *)

Section TickCases.
Context {L : Layout}.

(** The critical section leaves the head message as it is, or with its
    pending mask cleared. *)
Lemma process_locked_message now queue hq msg :
  snd (process_locked now queue hq msg) = msg \/
  snd (process_locked now queue hq msg) = set_pendingSubs msg 0.
Proof.
  destruct (Z.eq_dec (lagging (hq_subs hq) (msg_pendingSubs msg)) 0) as [Hz|Hlag].
  - rewrite process_locked_acked by assumption. now left.
  - destruct (Z.lt_ge_cases (q_msgTimeout queue) now) as [Hnow|Hnow].
    + rewrite process_locked_expired by (assumption || lia). now right.
    + rewrite process_locked_waiting by assumption. now left.
Qed.

Lemma process_queue_step now host j host1 :
  process_queue now host j = Some host1 ->
  (forall k, k <> j ->
     host_queues host1 k = host_queues host k /\
     hdr_queues (host_header host1) k = hdr_queues (host_header host) k) /\
  (forall a,
     rg_messages (host_mem host1) a = rg_messages (host_mem host) a \/
     rg_messages (host_mem host1) a = set_pendingSubs (rg_messages (host_mem host) a) 0) /\
  (q_count (host_queues host j) <> 0 ->
   host_queues host1 j = fst (fst (tick_at now host j)) /\
   hdr_queues (host_header host1) j = snd (fst (tick_at now host j))).
Proof.
  unfold process_queue, tick_at, head_message, head_addr. intros H.
  destruct (Z.eqb_spec (q_count (host_queues host j)) 0) as [Hz|Hnz].
  - injection H as <-. repeat split; auto; contradiction.
  - destruct (hq_lock _); [discriminate|].
    pose proof (process_locked_message now (host_queues host j)
                  (hdr_queues (host_header host) j)
                  (rg_messages (host_mem host)
                     (msg_addr (hdr_queues (host_header host) j)
                               (q_start (host_queues host j))))) as Hmsg.
    destruct (process_locked _ _ _ _) as [[queue hq] msg]. cbn [snd] in Hmsg.
    injection H as <-. unfold host_header. cbn. unfold upd.
    split; [|split].
    + intros k Hk. apply Z.eqb_neq in Hk. now rewrite Hk.
    + intros a. destruct (Z.eqb_spec a (msg_addr (hdr_queues (rg_header (host_mem host)) j)
                                                 (q_start (host_queues host j))))
        as [->|Hne]; [exact Hmsg | now left].
    + intros _. now rewrite !Z.eqb_refl.
Qed.

Lemma process_queues_keep now idxs : forall host host' i,
  process_queues now host idxs = Some host' -> ~ In i idxs ->
  host_queues host' i = host_queues host i /\
  hdr_queues (host_header host') i = hdr_queues (host_header host) i.
Proof.
  induction idxs as [|j idxs IH]; intros host host' i H Hni; simpl in H.
  - injection H as <-. auto.
  - destruct (process_queue now host j) as [host1|] eqn:H1; [|discriminate].
    destruct (IH host1 host' i H) as [-> ->]; [intros Hin; apply Hni; now right|].
    destruct (process_queue_step _ _ _ _ H1) as (Hother & _).
    apply Hother. intros ->. apply Hni. now left.
Qed.

Lemma process_queues_at_any now idxs : forall host host' i,
  process_queues now host idxs = Some host' ->
  NoDup idxs -> In i idxs ->
  q_count (host_queues host i) <> 0 ->
  exists msg,
    (msg = head_message host i \/ msg = set_pendingSubs (head_message host i) 0) /\
    host_queues host' i
    = fst (fst (process_locked now (host_queues host i)
                               (hdr_queues (host_header host) i) msg)) /\
    hdr_queues (host_header host') i
    = snd (fst (process_locked now (host_queues host i)
                               (hdr_queues (host_header host) i) msg)).
Proof.
  induction idxs as [|j idxs IH]; intros host host' i H Hnd Hin Hnz;
    simpl in H; [destruct Hin|].
  destruct (process_queue now host j) as [host1|] eqn:H1; [|discriminate].
  inversion Hnd as [|? ? Hj Hnd']; subst.
  destruct (process_queue_step _ _ _ _ H1) as (Hother & Hmsg & Hown).
  destruct (Z.eq_dec j i) as [->|Hji].
  - exists (head_message host i). split; [now left|].
    destruct (process_queues_keep _ _ _ _ i H Hj) as [-> ->].
    destruct (Hown Hnz) as [-> ->]. unfold tick_at. auto.
  - destruct Hin as [->|Hin]; [contradiction|].
    destruct (Hother i) as [Hq Hhq]; [congruence|].
    destruct (IH host1 host' i H Hnd' Hin) as (msg & Hm & Hq' & Hhq').
    + now rewrite Hq.
    + rewrite Hq, Hhq in Hq', Hhq'. exists msg. split; [|auto].
      assert (Hhead : head_message host1 i
                      = rg_messages (host_mem host1) (head_addr host i))
        by (unfold head_message, head_addr; now rewrite Hq, Hhq).
      rewrite Hhead in Hm. unfold head_message.
      destruct (Hmsg (head_addr host i)) as [Hsame|Hclr]; rewrite ?Hsame, ?Hclr in Hm.
      * exact Hm.
      * right. destruct Hm as [->| ->]; reflexivity.
Qed.

(** A tick that returns has run the critical section of queue [i] on the
    queue and the descriptor the tick started from, and on the head message
    as it was or with its pending mask cleared meanwhile. *)
Lemma lgmpHostProcess_at_any host now status host' i :
  lgmpHostProcess host now = Some (status, host') ->
  0 <= i < hdr_numQueues (host_header host) ->
  q_count (host_queues host i) <> 0 ->
  exists msg,
    (msg = head_message host i \/ msg = set_pendingSubs (head_message host i) 0) /\
    host_queues host' i
    = fst (fst (process_locked now (host_queues host i)
                               (hdr_queues (host_header host) i) msg)) /\
    hdr_queues (host_header host') i
    = snd (fst (process_locked now (host_queues host i)
                               (hdr_queues (host_header host) i) msg)).
Proof.
  unfold lgmpHostProcess. intros H Hi Hnz.
  destruct (process_queues _ _ _) as [host1|] eqn:H1; [|discriminate].
  injection H as _ <-.
  apply (process_queues_at_any _ _ _ _ i) in H1.
  - exact H1.
  - apply NoDup_indices.
  - apply in_indices. exact Hi.
  - exact Hnz.
Qed.

(** The three outcomes of a tick for a queue with an outstanding message:
    the head message completes without anybody being flagged; its lagging
    recipients are flagged and it completes; or the queue waits. *)
Lemma lgmpHostProcess_cases host now status host' i :
  lgmpHostProcess host now = Some (status, host') ->
  0 <= i < hdr_numQueues (host_header host) ->
  q_count (host_queues host i) <> 0 ->
  (host_queues host' i
   = complete now (host_queues host i) (hdr_queues (host_header host) i) /\
   hdr_queues (host_header host') i
   = set_subs_unlock (hdr_queues (host_header host) i)
       (reaped (hq_subs (hdr_queues (host_header host) i)) now
               (q_timeout (host_queues host i))))
  \/ (lagging (hq_subs (hdr_queues (host_header host) i))
              (msg_pendingSubs (head_message host i)) <> 0 /\
      q_msgTimeout (host_queues host i) < now /\
      host_queues host' i
      = complete now
          (set_q_timeout (host_queues host i)
             (flag_timeouts
                (lagging (hq_subs (hdr_queues (host_header host) i))
                         (msg_pendingSubs (head_message host i)))
                (u64 (now + LGMP_MAX_QUEUE_TIMEOUT))
                (q_timeout (host_queues host i))))
          (hdr_queues (host_header host) i) /\
      hdr_queues (host_header host') i
      = set_subs_unlock (hdr_queues (host_header host) i)
          (reaped
             (LGMP_SUBS_OR_BAD (hq_subs (hdr_queues (host_header host) i))
                (lagging (hq_subs (hdr_queues (host_header host) i))
                         (msg_pendingSubs (head_message host i))))
             now
             (flag_timeouts
                (lagging (hq_subs (hdr_queues (host_header host) i))
                         (msg_pendingSubs (head_message host i)))
                (u64 (now + LGMP_MAX_QUEUE_TIMEOUT))
                (q_timeout (host_queues host i)))))
  \/ (lagging (hq_subs (hdr_queues (host_header host) i))
              (msg_pendingSubs (head_message host i)) <> 0 /\
      now <= q_msgTimeout (host_queues host i) /\
      host_queues host' i = host_queues host i /\
      hdr_queues (host_header host') i
      = set_subs_unlock (hdr_queues (host_header host) i)
          (reaped (hq_subs (hdr_queues (host_header host) i)) now
                  (q_timeout (host_queues host i)))).
Proof.
  intros Hret Hi Hnz.
  destruct (lgmpHostProcess_at_any _ _ _ _ i Hret Hi Hnz) as (msg & Hm & -> & ->).
  destruct Hm as [->| ->].
  - destruct (Z.eq_dec (lagging (hq_subs (hdr_queues (host_header host) i))
                                (msg_pendingSubs (head_message host i))) 0) as [Hz|Hlag].
    + rewrite process_locked_acked by assumption. left. auto.
    + destruct (Z.lt_ge_cases (q_msgTimeout (host_queues host i)) now) as [Hnow|Hnow].
      * rewrite process_locked_expired by (assumption || lia). right. left. auto.
      * rewrite process_locked_waiting by assumption. right. right. auto.
  - rewrite process_locked_acked by reflexivity. left. auto.
Qed.

End TickCases.

(** ** The maintenance tick *)

Section TickProperties.
Context {L : Layout}.

(** C2.  When the head message of a queue is fully acknowledged by the
    recipients not flagged bad, or is force-cleared, the tick advances the
    read cursor circularly and decrements the count; it sets the head
    deadline to now + 150 ms whether or not a message remains. *)
Theorem tick_completion_resets_deadline :
  forall host now status host' i,
    lgmpHostProcess host now = Some (status, host') ->
    0 <= i < hdr_numQueues (host_header host) ->
    0 < q_count (host_queues host i) < 2 ^ 32 ->
    lagging (hq_subs (hdr_queues (host_header host) i))
            (msg_pendingSubs (head_message host i)) = 0
    \/ q_msgTimeout (host_queues host i) < now ->
    q_start (host_queues host' i)
    = advance (q_start (host_queues host i))
              (hq_numMessages (hdr_queues (host_header host) i)) /\
    q_count (host_queues host' i) = q_count (host_queues host i) - 1 /\
    q_msgTimeout (host_queues host' i) = u64 (now + LGMP_MAX_MESSAGE_AGE).
Proof.
  intros host now status host' i Hret Hi Hcount Hdone.
  assert (Hnz : q_count (host_queues host i) <> 0) by lia.
  assert (Hq : exists timeout,
             host_queues host' i
             = complete now (set_q_timeout (host_queues host i) timeout)
                        (hdr_queues (host_header host) i)).
  { destruct (lgmpHostProcess_cases _ _ _ _ i Hret Hi Hnz)
      as [(-> & _) | [(_ & _ & -> & _) | (Hlag & Hnow & _)]].
    - exists (q_timeout (host_queues host i)). now destruct (host_queues host i).
    - eauto.
    - destruct Hdone; [contradiction | lia]. }
  destruct Hq as [timeout ->].
  destruct (complete_fields now (set_q_timeout (host_queues host i) timeout)
              (hdr_queues (host_header host) i) Hnz) as (-> & -> & ->).
  cbn [q_start q_count set_q_timeout]. rewrite u32_small by lia.
  repeat split.
Qed.


(** C8, amended.  When the subscribed mask of the queue is not empty, the
    tick clears every subscriber that is flagged bad and whose reap deadline
    has passed from both masks of the stored word; a flagged subscriber
    whose deadline has not passed keeps both bits. *)
Theorem tick_reaps_expired_bad_subscribers :
  forall host now status host' i id,
    lgmpHostProcess host now = Some (status, host') ->
    0 <= i < hdr_numQueues (host_header host) ->
    q_count (host_queues host i) <> 0 ->
    LGMP_SUBS_ON (hq_subs (hdr_queues (host_header host) i)) <> 0 ->
    0 <= id < 32 ->
    flagged_bad (hq_subs (hdr_queues (host_header host) i)) id = true ->
    (q_timeout (host_queues host i) id < now ->
     flagged_bad (hq_subs (hdr_queues (host_header host') i)) id = false /\
     subscribed (hq_subs (hdr_queues (host_header host') i)) id = false) /\
    (now <= q_timeout (host_queues host i) id ->
     flagged_bad (hq_subs (hdr_queues (host_header host') i)) id = true /\
     subscribed (hq_subs (hdr_queues (host_header host') i)) id
     = subscribed (hq_subs (hdr_queues (host_header host) i)) id).
Proof.
  intros host now status host' i id Hret Hi Hnz Hon Hid Hbad.
  pose proof (lgmpHostProcess_cases _ _ _ _ i Hret Hi Hnz) as Hcases.
  set (subs := hq_subs (hdr_queues (host_header host) i)) in *.
  set (pend := msg_pendingSubs (head_message host i)) in *.
  assert (Hgt : q_timeout (host_queues host i) id < now ->
                (now >? q_timeout (host_queues host i) id) = true)
    by (intros; apply Z.gtb_lt; lia).
  assert (Hle : now <= q_timeout (host_queues host i) id ->
                (now >? q_timeout (host_queues host i) id) = false)
    by (intros; rewrite Z.gtb_ltb; apply Z.ltb_ge; lia).
  assert (Hsubs' : exists subs1 timeout,
            hq_subs (hdr_queues (host_header host') i) = reaped subs1 now timeout /\
            LGMP_SUBS_ON subs1 <> 0 /\
            flagged_bad subs1 id = true /\
            subscribed subs1 id = subscribed subs id /\
            timeout id = q_timeout (host_queues host i) id).
  { destruct Hcases as [(_ & ->) | [(_ & _ & _ & ->) | (_ & _ & _ & ->)]];
      cbn [hq_subs set_subs_unlock]; fold subs; fold pend.
    - exists subs, (q_timeout (host_queues host i)). auto.
    - exists (LGMP_SUBS_OR_BAD subs (lagging subs pend)),
             (flag_timeouts (lagging subs pend) (u64 (now + LGMP_MAX_QUEUE_TIMEOUT))
                            (q_timeout (host_queues host i))).
      repeat split.
      + now rewrite SUBS_ON_OR_BAD.
      + rewrite flagged_bad_OR_BAD, Hbad by assumption. reflexivity.
      + unfold subscribed. now rewrite SUBS_ON_OR_BAD.
      + rewrite flag_timeouts_spec, testbit_lagging by lia.
        unfold flagged_bad in Hbad. rewrite Hbad. now rewrite !andb_false_r.
    - exists subs, (q_timeout (host_queues host i)). auto. }
  destruct Hsubs' as (subs1 & timeout & -> & Hon1 & Hbad1 & Hsub1 & Ht).
  destruct (reaped_spec subs1 now timeout id Hid Hon1) as [-> ->].
  rewrite Hbad1, Hsub1, Ht. cbn [andb].
  split; intros Hcmp.
  - rewrite (Hgt Hcmp). cbn [negb]. split; [reflexivity | apply andb_false_r].
  - rewrite (Hle Hcmp). cbn [negb]. split; [reflexivity | apply andb_true_r].
Qed.

End TickProperties.

(** ** The tick returns *)

Section TickReturns.
Context {L : Layout}.

Lemma q_index_complete now queue hq :
  q_index (complete now queue hq) = q_index queue.
Proof. unfold complete. cbn. destruct (negb _); reflexivity. Qed.

Lemma process_locked_handle now queue hq msg :
  q_index (fst (fst (process_locked now queue hq msg))) = q_index queue /\
  hq_lock (snd (fst (process_locked now queue hq msg))) = false.
Proof.
  destruct (Z.eq_dec (lagging (hq_subs hq) (msg_pendingSubs msg)) 0) as [Hz|Hlag].
  - rewrite process_locked_acked by assumption. cbn [fst snd].
    now rewrite q_index_complete.
  - destruct (Z.lt_ge_cases (q_msgTimeout queue) now) as [Hnow|Hnow].
    + rewrite process_locked_expired by (assumption || lia). cbn [fst snd].
      now rewrite q_index_complete.
    + rewrite process_locked_waiting by assumption. now cbn [fst snd].
Qed.

Lemma process_queue_ok now host j host1 :
  queues_ok host -> process_queue now host j = Some host1 -> queues_ok host1.
Proof.
  unfold process_queue. intros Hok H.
  destruct (q_count (host_queues host j) =? 0); [now injection H as <-|].
  destruct (hq_lock _); [discriminate|].
  pose proof (process_locked_handle now (host_queues host j)
                (hdr_queues (host_header host) j)
                (rg_messages (host_mem host)
                   (msg_addr (hdr_queues (host_header host) j)
                             (q_start (host_queues host j))))) as Hh.
  destruct (process_locked _ _ _ _) as [[queue hq] msg]. cbn [fst snd] in Hh.
  injection H as <-. destruct Hok as [Hn Hok]. destruct Hh as [Hidx Hlock].
  unfold queues_ok, host_header in *. cbn. split; [assumption|].
  intros i Hi. unfold upd. destruct (Z.eqb_spec i j) as [->|Hne].
  - split; [assumption|]. rewrite Hidx. now apply Hok.
  - now apply Hok.
Qed.

Lemma process_queue_numQueues now host j host1 :
  process_queue now host j = Some host1 ->
  hdr_numQueues (host_header host1) = hdr_numQueues (host_header host).
Proof.
  unfold process_queue. intros H.
  destruct (q_count (host_queues host j) =? 0); [now injection H as <-|].
  destruct (hq_lock _); [discriminate|].
  destruct (process_locked _ _ _ _) as [[queue hq] msg].
  now injection H as <-.
Qed.

Lemma process_queues_returns now idxs : forall host,
  queues_ok host ->
  (forall j, In j idxs -> 0 <= j < hdr_numQueues (host_header host)) ->
  exists host', process_queues now host idxs = Some host' /\ queues_ok host'.
Proof.
  induction idxs as [|j idxs IH]; intros host Hok Hin; simpl.
  - eauto.
  - destruct (process_queue now host j) as [host1|] eqn:H1.
    + apply IH.
      * eapply process_queue_ok; eassumption.
      * intros k Hk. rewrite (process_queue_numQueues _ _ _ _ H1).
        apply Hin. now right.
    + exfalso. unfold process_queue in H1.
      destruct (q_count (host_queues host j) =? 0); [discriminate|].
      destruct Hok as [_ Hok]. destruct (Hok j) as [Hlock _]; [apply Hin; now left|].
      rewrite Hlock in H1.
      destruct (process_locked _ _ _ _) as [[queue hq] msg]. discriminate.
Qed.

Lemma lgmpHostProcess_returns host now :
  queues_ok host ->
  exists host', lgmpHostProcess host now = Some (LGMP_OK, host') /\ queues_ok host'.
Proof.
  intros Hok. unfold lgmpHostProcess.
  destruct (process_queues_returns now
              (indices (hdr_numQueues (host_header host)))
              (set_host_mem host
                 (set_header (host_mem host)
                    (set_heartbeat (host_header host)
                       (u32 (hdr_heartbeat (host_header host) + 1))))))
    as (host' & Hret & Hok').
  - exact Hok.
  - intros j Hj. apply in_indices in Hj. exact Hj.
  - cbn [hdr_numQueues set_heartbeat]. rewrite Hret. eauto.
Qed.

Lemma step_queues_ok host host' : queues_ok host -> step host host' -> queues_ok host'.
Proof.
  intros Hok Hstep. destruct Hstep as
    [host queueID numMessages clock Hn | host size malloc_ok result Hsize
    | host qi udata payload clock Hqi | host now status host' Hproc
    | host i id Hi Hid | host i slot id Hi Hslot Hid].
  - unfold lgmpHostAddQueue.
    destruct (host_started host); [assumption|].
    destruct (_ =? LGMP_MAX_QUEUES); [assumption|].
    destruct (_ <? _); [assumption|].
    destruct Hok as [Hn0 Hok]. unfold queues_ok, host_header in *. cbn.
    pose proof (u32_range (hdr_numQueues (rg_header (host_mem host)) + 1)) as Hr.
    split; [lia|]. intros i Hi. unfold upd.
    destruct (Z.eqb_spec i (hdr_numQueues (rg_header (host_mem host)))) as [->|Hne];
      [split; reflexivity|].
    apply Hok. unfold u32 in Hi.
    pose proof (Z.mod_le (hdr_numQueues (rg_header (host_mem host)) + 1) (2 ^ 32)).
    lia.
  - unfold lgmpHostMemAlloc.
    destruct (_ >? _); [assumption|]. destruct malloc_ok; assumption.
  - unfold lgmpHostPost.
    destruct (_ =? 0); [assumption|].
    destruct (_ =? _); [assumption|].
    destruct Hok as [Hn0 Hok]. destruct (Hok qi Hqi) as [Hlock Hidx].
    unfold queues_ok, host_header in *.
    destruct (q_count (host_queues host qi) =? 0); cbn; rewrite Hidx;
      (split; [assumption|]); intros i Hi; unfold upd;
      (destruct (Z.eqb_spec i qi) as [->|Hne]; [split; assumption | now apply Hok]).
  - destruct (lgmpHostProcess_returns host now Hok) as (host1 & Hret & Hok1).
    rewrite Hret in Hproc. now injection Hproc as _ <-.
  - destruct Hok as [Hn0 Hok]. unfold queues_ok, client_subscribe, host_header in *.
    cbn. split; [assumption|]. intros k Hk. unfold upd.
    destruct (Z.eqb_spec k i) as [->|Hne]; [cbn|]; now apply Hok.
  - exact Hok.
Qed.

Lemma reachable_queues_ok host : reachable host -> queues_ok host.
Proof.
  induction 1 as [mem size clock alloc rands host Hsize Hinit | host host' _ IH Hstep].
  - unfold lgmpHostInit in Hinit.
    destruct (size =? 0); [discriminate|].
    destruct (clock =? 0); [discriminate|].
    destruct (size <? sizeof_LGMPHeader); [discriminate|].
    destruct alloc as [h|]; [|discriminate].
    destruct (pick_sessionID rands _ _) as [sid|]; [|discriminate].
    injection Hinit as <-. unfold queues_ok, host_header. cbn.
    split; [lia|]. intros i Hi. lia.
  - eapply step_queues_ok; eassumption.
Qed.

(** X22.  In a host reached from a successful [lgmpHostInit] the tick returns,
    and it returns LGMP_OK: no lock it takes is held. *)
Lemma reachable_tick_returns host now :
  reachable host -> exists host', lgmpHostProcess host now = Some (LGMP_OK, host').
Proof.
  intros Hreach.
  destruct (lgmpHostProcess_returns host now (reachable_queues_ok host Hreach))
    as (host' & Hret & _).
  eauto.
Qed.

End TickReturns.

(** ** The scenario: runs on the concrete layout *)

Lemma tick_returns host now :
  lgmpHostProcess host now <> None ->
  lgmpHostProcess host now = Some (LGMP_OK, tick host now).
Proof.
  intros Hret. unfold tick.
  destruct (lgmpHostProcess host now) as [[status host']|] eqn:E; [|congruence].
  unfold lgmpHostProcess in E.
  destruct (process_queues _ _ _); [|discriminate].
  injection E as <- <-. reflexivity.
Qed.

Lemma lgmpHostPost_numQueues host qi udata payload clock :
  hdr_numQueues (host_header (snd (lgmpHostPost host qi udata payload clock)))
  = hdr_numQueues (host_header host).
Proof.
  unfold lgmpHostPost.
  destruct (_ =? 0); [reflexivity|].
  destruct (_ =? _); reflexivity.
Qed.

Lemma reachable_posts k : forall host clock,
  reachable host -> 0 < hdr_numQueues (host_header host) ->
  reachable (posts k host clock).
Proof.
  induction k as [|k IH]; intros host clock Hreach Hn; cbn [posts]; [assumption|].
  apply IH.
  - eapply reach_step; [eassumption|]. apply step_post. lia.
  - now rewrite lgmpHostPost_numQueues.
Qed.

Lemma reachable_tick host now :
  reachable host -> lgmpHostProcess host now <> None -> reachable (tick host now).
Proof.
  intros Hreach Hret. eapply reach_step; [eassumption|].
  eapply step_process. apply tick_returns. assumption.
Qed.

Lemma reachable_host_sub0_4 : reachable (host_sub0 4).
Proof.
  unfold host_sub0.
  eapply reach_step.
  - eapply reach_step; [exact host0_reachable|].
    apply (step_addQueue host0 1 4 1000). lia.
  - apply (step_subscribe (snd (lgmpHostAddQueue host0 1 4 1000)) 0 0);
      vm_compute; split; (discriminate || reflexivity).
Qed.

Lemma reachable_backlog k : reachable (backlog k).
Proof.
  apply reachable_posts; [exact reachable_host_sub0_4 | reflexivity].
Qed.

Lemma region_accounting_invariant_witness :
  reachable (backlog 3) /\
  host_nextFree (backlog 3) + host_avail (backlog 3) = host_size (backlog 3) /\
  host_nextFree (snd (lgmpHostAddQueue (backlog 3) 2 4 1000))
  = host_nextFree (backlog 3) + usize (sizeof_LGMPHeaderMessage * u32 (4 + 1)) /\
  usize (sizeof_LGMPHeaderMessage * u32 (4 + 1)) = 80 /\
  host_avail (snd (lgmpHostAddQueue (backlog 3) 2 4 1000)) = host_avail (backlog 3) - 80 /\
  host_avail (snd (lgmpHostMemAlloc (backlog 3) 64 true None)) = host_avail (backlog 3) - 64 /\
  host_nextFree (snd (lgmpHostMemAlloc (backlog 3) 64 true None))
  = host_nextFree (backlog 3) + 64 /\
  host_avail (snd (lgmpHostMemAlloc (backlog 3) 5000 true None)) = host_avail (backlog 3) /\
  host_nextFree (snd (lgmpHostMemAlloc (backlog 3) 5000 true None))
  = host_nextFree (backlog 3).
Proof.
  split; [exact (reachable_backlog 3)|].
  destruct (region_accounting_invariant (backlog 3) (reachable_backlog 3))
    as (Hsum & Hadd & Halloc & _).
  split; [exact Hsum|].
  destruct (Hadd 2 4 1000 LGMP_OK (Some 1) (snd (lgmpHostAddQueue (backlog 3) 2 4 1000)))
    as (_ & _ & Hok & _); [vm_compute; reflexivity|].
  destruct (Hok eq_refl) as (_ & Hnext & Hav).
  assert (Hamount : usize (sizeof_LGMPHeaderMessage * u32 (4 + 1)) = 80)
    by (vm_compute; reflexivity).
  split; [exact Hnext|]. split; [exact Hamount|].
  split; [rewrite Hav, Hamount; reflexivity|].
  destruct (Halloc 64 true None LGMP_OK (Some (mkMemory 208 64))
              (snd (lgmpHostMemAlloc (backlog 3) 64 true None)))
    as (_ & _ & Hok64 & _); [lia | vm_compute; reflexivity|].
  destruct (Hok64 eq_refl) as (Hnext64 & Havail64).
  split; [exact Havail64|]. split; [exact Hnext64|].
  destruct (Halloc 5000 true None LGMP_ERR_NO_SHARED_MEM None
              (snd (lgmpHostMemAlloc (backlog 3) 5000 true None)))
    as (_ & _ & _ & Hfail); [lia | vm_compute; reflexivity|].
  destruct Hfail as (Hn & Ha); [discriminate|]. split; assumption.
Defined.

Lemma reachable_flagged k :
  lgmpHostProcess (backlog k) 2000 <> None -> reachable (flagged k).
Proof. intros H. apply reachable_tick; [apply reachable_backlog | exact H]. Qed.

Lemma reachable_unsubscribed k :
  lgmpHostProcess (backlog k) 2000 <> None ->
  lgmpHostProcess (flagged k) 13000 <> None ->
  reachable (unsubscribed k).
Proof. intros H1 H2. apply reachable_tick; [now apply reachable_flagged | exact H2]. Qed.

Lemma reachable_stale k :
  lgmpHostProcess (backlog k) 2000 <> None ->
  lgmpHostProcess (flagged k) 13000 <> None ->
  lgmpHostProcess (unsubscribed k) 14000 <> None ->
  reachable (stale k).
Proof.
  intros H1 H2 H3. apply reachable_tick; [now apply reachable_unsubscribed | exact H3].
Qed.

Lemma heads_apart_single host :
  hdr_numQueues (host_header host) = 1 -> heads_apart host 0.
Proof. intros H j Hj Hne. lia. Qed.

Lemma tick_completion_resets_deadline_witness :
  q_count (host_queues acked1 0) = 1 /\
  q_start (host_queues (tick acked1 1100) 0) = 1 /\
  q_count (host_queues (tick acked1 1100) 0) = 0 /\
  q_msgTimeout (host_queues (tick acked1 1100) 0) = 1250.
Proof.
  split; [vm_compute; reflexivity|].
  destruct (tick_completion_resets_deadline acked1 1100 LGMP_OK (tick acked1 1100) 0)
    as (H1 & H2 & H3).
  - apply tick_returns. vm_compute. discriminate.
  - vm_compute. split; [discriminate | reflexivity].
  - vm_compute. split; reflexivity.
  - left. vm_compute. reflexivity.
  - rewrite H1, H2, H3. vm_compute. repeat split.
Defined.

Lemma tick_reaps_expired_bad_subscribers_witness :
  LGMP_SUBS_ON (hq_subs (hdr_queues (host_header (flagged 3)) 0)) = 1 /\
  flagged_bad (hq_subs (hdr_queues (host_header (flagged 3)) 0)) 0 = true /\
  q_timeout (host_queues (flagged 3) 0) 0 < 13000 /\
  flagged_bad (hq_subs (hdr_queues (host_header (unsubscribed 3)) 0)) 0 = false /\
  subscribed (hq_subs (hdr_queues (host_header (unsubscribed 3)) 0)) 0 = false.
Proof.
  split; [vm_compute; reflexivity|].
  split; [vm_compute; reflexivity|].
  split; [vm_compute; reflexivity|].
  destruct (tick_reaps_expired_bad_subscribers
              (flagged 3) 13000 LGMP_OK (unsubscribed 3) 0 0) as (H1 & _).
  - apply tick_returns. vm_compute. discriminate.
  - vm_compute. split; [discriminate | reflexivity].
  - vm_compute. discriminate.
  - vm_compute. discriminate.
  - lia.
  - vm_compute. reflexivity.
  - apply H1. vm_compute. reflexivity.
Defined.

(** C8 as stated fails where the subscribed mask is empty: in [stale 4],
    reached by the calls of the scenario, one message is outstanding,
    subscriber 0 is flagged bad and its reap deadline 24000 has passed at
    30000, yet the tick at 30000 returns with the subscriber still flagged. *)
Lemma reap_skipped_when_nobody_subscribed :
  reachable (stale 4) /\
  q_count (host_queues (stale 4) 0) = 1 /\
  flagged_bad (hq_subs (hdr_queues (host_header (stale 4)) 0)) 0 = true /\
  q_timeout (host_queues (stale 4) 0) 0 = 24000 /\
  lgmpHostProcess (stale 4) 30000 = Some (LGMP_OK, tick (stale 4) 30000) /\
  flagged_bad (hq_subs (hdr_queues (host_header (tick (stale 4) 30000)) 0)) 0 = true.
Proof.
  split; [apply reachable_stale; vm_compute; discriminate|].
  split; [vm_compute; reflexivity|].
  split; [vm_compute; reflexivity|].
  split; [vm_compute; reflexivity|].
  split; [apply tick_returns; vm_compute; discriminate|].
  vm_compute; reflexivity.
Qed.

(** C9.  The scenario reaches a subscriber word whose flagged-bad mask is not
    within its subscribed mask: after the third tick subscriber 0, reaped
    and no longer subscribed, is flagged bad again, on the pending bit the
    third message still carries for it. *)
Theorem stale_pending_bit_flags_unsubscribed :
  reachable (stale 3) /\
  subscribed (hq_subs (hdr_queues (host_header (unsubscribed 3)) 0)) 0 = false /\
  msg_pendingSubs (head_message (unsubscribed 3) 0) = 1 /\
  LGMP_SUBS_ON (hq_subs (hdr_queues (host_header (stale 3)) 0)) = 0 /\
  LGMP_SUBS_BAD (hq_subs (hdr_queues (host_header (stale 3)) 0)) = 1 /\
  flagged_bad (hq_subs (hdr_queues (host_header (stale 3)) 0)) 0 = true /\
  subscribed (hq_subs (hdr_queues (host_header (stale 3)) 0)) 0 = false.
Proof.
  split; [apply reachable_stale; vm_compute; discriminate|].
  repeat split; vm_compute; reflexivity.
Qed.

(** * Further properties of the host *)

(** ** Invariants carried through the loop of the tick *)

Section TickInvariants.
Context {L : Layout}.

Lemma process_queues_invariant (P : LGMPHost -> Prop) now :
  (forall host j host1, P host -> process_queue now host j = Some host1 -> P host1) ->
  forall idxs host host',
    P host -> process_queues now host idxs = Some host' -> P host'.
Proof.
  intros Hstep. induction idxs as [|j idxs IH]; intros host host' HP H; simpl in H.
  - now injection H as <-.
  - destruct (process_queue now host j) as [host1|] eqn:H1; [|discriminate].
    eapply IH; [|exact H]. eapply Hstep; eassumption.
Qed.

Lemma lgmpHostProcess_invariant (P : LGMPHost -> Prop) host now status host' :
  (forall host j host1, P host -> process_queue now host j = Some host1 -> P host1) ->
  (forall host v, P host ->
     P (set_host_mem host (set_header (host_mem host)
                             (set_heartbeat (host_header host) v)))) ->
  P host -> lgmpHostProcess host now = Some (status, host') -> P host'.
Proof.
  intros Hstep Hbeat HP H. unfold lgmpHostProcess in H.
  destruct (process_queues _ _ _) as [host1|] eqn:H1; [|discriminate].
  injection H as _ <-.
  eapply process_queues_invariant; [exact Hstep | | exact H1].
  apply Hbeat. exact HP.
Qed.

(** What the critical section leaves of the cursors and of the descriptor. *)
Lemma process_locked_cursors now queue hq msg :
  let queue' := fst (fst (process_locked now queue hq msg)) in
  let hq' := snd (fst (process_locked now queue hq msg)) in
  hq_numMessages hq' = hq_numMessages hq /\
  hq_messagesOffset hq' = hq_messagesOffset hq /\
  hq_position hq' = hq_position hq /\
  hq_queueID hq' = hq_queueID hq /\
  q_position queue' = q_position queue /\
  ((q_start queue' = q_start queue /\ q_count queue' = q_count queue /\
    q_msgTimeout queue' = q_msgTimeout queue)
   \/ (q_start queue' = advance (q_start queue) (hq_numMessages hq) /\
       q_count queue' = u32 (q_count queue - 1))).
Proof.
  assert (Hc : forall q, q_position (complete now q hq) = q_position q /\
                         q_start (complete now q hq) = advance (q_start q) (hq_numMessages hq) /\
                         q_count (complete now q hq) = u32 (q_count q - 1)).
  { intros q. unfold complete.
    cbn [q_count q_start q_position set_q_start set_q_count].
    destruct (negb _); cbn [q_count q_start q_position set_q_count set_q_msgTimeout]; auto. }
  destruct (Z.eq_dec (lagging (hq_subs hq) (msg_pendingSubs msg)) 0) as [Hz|Hlag].
  - rewrite process_locked_acked by assumption. cbn [fst snd].
    destruct (Hc queue) as (-> & -> & ->).
    cbn [hq_numMessages hq_messagesOffset hq_position hq_queueID set_subs_unlock].
    auto 10.
  - destruct (Z.lt_ge_cases (q_msgTimeout queue) now) as [Hnow|Hnow].
    + rewrite process_locked_expired by (assumption || lia). cbn [fst snd].
      match goal with |- context [complete now ?q hq] =>
        destruct (Hc q) as (-> & -> & ->) end.
      cbn [hq_numMessages hq_messagesOffset hq_position hq_queueID set_subs_unlock
           q_start q_count q_position set_q_timeout].
      auto 10.
    + rewrite process_locked_waiting by assumption. cbn [fst snd].
      cbn [hq_numMessages hq_messagesOffset hq_position hq_queueID set_subs_unlock].
      auto 10.
Qed.

(** What the body of the loop changes: nothing but queue [j], its
    descriptor and its head slot, and of the first two only what
    [process_locked_cursors] allows. *)
Lemma process_queue_effect now host j host1 :
  process_queue now host j = Some host1 ->
  bookkeeping host1 = bookkeeping host /\
  hdr_numQueues (host_header host1) = hdr_numQueues (host_header host) /\
  hdr_heartbeat (host_header host1) = hdr_heartbeat (host_header host) /\
  hdr_sessionID (host_header host1) = hdr_sessionID (host_header host) /\
  (forall k, k <> j ->
     host_queues host1 k = host_queues host k /\
     hdr_queues (host_header host1) k = hdr_queues (host_header host) k) /\
  (q_count (host_queues host j) = 0 -> host1 = host) /\
  (q_count (host_queues host j) <> 0 ->
   host_queues host1 j = fst (fst (tick_at now host j)) /\
   hdr_queues (host_header host1) j = snd (fst (tick_at now host j))).
Proof.
  unfold process_queue, tick_at, head_message, head_addr. intros H.
  destruct (Z.eqb_spec (q_count (host_queues host j)) 0) as [Hz|Hnz].
  - injection H as <-. repeat split; try reflexivity; try contradiction.
  - destruct (hq_lock _); [discriminate|].
    destruct (process_locked _ _ _ _) as [[queue hq] msg].
    injection H as <-. unfold host_header. cbn.
    repeat split; try reflexivity; try contradiction.
    + unfold upd. apply Z.eqb_neq in H. now rewrite H.
    + unfold upd. apply Z.eqb_neq in H. now rewrite H.
    + unfold upd. now rewrite Z.eqb_refl.
    + unfold upd. now rewrite Z.eqb_refl.
Qed.

End TickInvariants.

(** ** What each call does *)

Section CallEffects.
Context {L : Layout}.

(** A failed [lgmpHostAddQueue]: the cause of each status, no handle, and
    the host as it was. *)
Lemma lgmpHostAddQueue_failed host queueID numMessages clock status res host' :
  lgmpHostAddQueue host queueID numMessages clock = (status, res, host') ->
  status <> LGMP_OK ->
  res = None /\ host' = host /\
  ((status = LGMP_ERR_HOST_STARTED /\ host_started host = true)
   \/ (status = LGMP_ERR_NO_QUEUES /\ host_started host = false /\
       hdr_numQueues (host_header host) = LGMP_MAX_QUEUES)
   \/ (status = LGMP_ERR_NO_SHARED_MEM /\ host_started host = false /\
       hdr_numQueues (host_header host) <> LGMP_MAX_QUEUES /\
       host_avail host < usize (sizeof_LGMPHeaderMessage * u32 (numMessages + 1)))).
Proof.
  unfold lgmpHostAddQueue. intros H Hst.
  destruct (host_started host); [injection H as <- <- <-; auto 10|].
  destruct (Z.eqb_spec (hdr_numQueues (host_header host)) LGMP_MAX_QUEUES) as [Hmax|Hmax];
    [injection H as <- <- <-; auto 10|].
  destruct (Z.ltb_spec (host_avail host)
              (usize (sizeof_LGMPHeaderMessage * u32 (numMessages + 1)))) as [Hlt|Hge];
    [injection H as <- <- <-; auto 10|].
  injection H as <- _ _. contradiction.
Qed.

(** A successful [lgmpHostAddQueue]: the handle, the new queue and its
    descriptor, and what is left as it was. *)
Lemma lgmpHostAddQueue_ok host queueID numMessages clock res host' :
  lgmpHostAddQueue host queueID numMessages clock = (LGMP_OK, res, host') ->
  host_started host = false /\
  hdr_numQueues (host_header host) <> LGMP_MAX_QUEUES /\
  usize (sizeof_LGMPHeaderMessage * u32 (numMessages + 1)) <= host_avail host /\
  res = Some (hdr_numQueues (host_header host)) /\
  hdr_numQueues (host_header host') = u32 (hdr_numQueues (host_header host) + 1) /\
  host_queues host' (hdr_numQueues (host_header host))
  = mkHQueue (hdr_numQueues (host_header host)) 0 0 0
             (u64 (clock + LGMP_MAX_MESSAGE_AGE))
             (q_timeout (host_queues host (hdr_numQueues (host_header host)))) /\
  hdr_queues (host_header host') (hdr_numQueues (host_header host))
  = mkHeaderQueue queueID (u32 (numMessages + 1)) false 0 0 (host_nextFree host) /\
  (forall k, k <> hdr_numQueues (host_header host) ->
     host_queues host' k = host_queues host k /\
     hdr_queues (host_header host') k = hdr_queues (host_header host) k) /\
  rg_messages (host_mem host') = rg_messages (host_mem host) /\
  hdr_heartbeat (host_header host') = hdr_heartbeat (host_header host) /\
  hdr_sessionID (host_header host') = hdr_sessionID (host_header host) /\
  host'
  = bump (set_host_mem (set_host_queue host (hdr_numQueues (host_header host))
                          (host_queues host' (hdr_numQueues (host_header host))))
                       (host_mem host'))
         (usize (sizeof_LGMPHeaderMessage * u32 (numMessages + 1))).
Proof.
  unfold lgmpHostAddQueue. intros H.
  destruct (host_started host); [discriminate|].
  destruct (Z.eqb_spec (hdr_numQueues (host_header host)) LGMP_MAX_QUEUES) as [Hmax|Hmax];
    [discriminate|].
  destruct (Z.ltb_spec (host_avail host)
              (usize (sizeof_LGMPHeaderMessage * u32 (numMessages + 1)))) as [Hlt|Hge];
    [discriminate|].
  injection H as <- <-. unfold host_header.
  cbn [bump set_host_mem set_host_queue set_header set_hdr_queue set_numQueues
       host_mem host_queues host_size host_avail host_nextFree host_started
       rg_header rg_messages hdr_numQueues hdr_queues hdr_heartbeat hdr_sessionID].
  unfold upd. rewrite !Z.eqb_refl.
  repeat split; try assumption; try reflexivity.
  - apply Z.eqb_neq in H. now rewrite H.
  - apply Z.eqb_neq in H. now rewrite H.
Qed.

(** The path of [lgmpHostPost] that writes a message: the slot, the cursors,
    the deadline, and what is left as it was. *)
Lemma lgmpHostPost_written host qi udata payload clock :
  recipients (hq_subs (descriptor host qi)) <> 0 ->
  q_count (host_queues host qi) <> u32 (hq_numMessages (descriptor host qi) - 1) ->
  q_index (host_queues host qi) = qi ->
  let host' := snd (lgmpHostPost host qi udata payload clock) in
  let queue := host_queues host qi in
  let hq := hdr_queues (host_header host) qi in
  host_queues host' qi
  = mkHQueue qi (advance (q_position queue) (hq_numMessages hq))
             (u32 (q_count queue + 1)) (q_start queue)
             (if q_count queue =? 0 then u64 (clock + LGMP_MAX_MESSAGE_AGE)
              else q_msgTimeout queue)
             (q_timeout queue) /\
  hdr_queues (host_header host') qi
  = set_hq_position hq (advance (q_position queue) (hq_numMessages hq)) /\
  (forall k, k <> qi ->
     host_queues host' k = host_queues host k /\
     hdr_queues (host_header host') k = hdr_queues (host_header host) k) /\
  rg_messages (host_mem host') (msg_addr hq (q_position queue))
  = mkMessage udata (mem_size payload) (mem_offset payload) (recipients (hq_subs hq)) /\
  (forall a, a <> msg_addr hq (q_position queue) ->
     rg_messages (host_mem host') a = rg_messages (host_mem host) a) /\
  bookkeeping host' = bookkeeping host /\
  hdr_numQueues (host_header host') = hdr_numQueues (host_header host) /\
  hdr_heartbeat (host_header host') = hdr_heartbeat (host_header host) /\
  hdr_sessionID (host_header host') = hdr_sessionID (host_header host).
Proof.
  unfold descriptor. intros Hrec Hfull Hidx. rewrite Hidx in *.
  unfold lgmpHostPost. rewrite Hidx.
  fold (recipients (hq_subs (hdr_queues (host_header host) qi))).
  apply Z.eqb_neq in Hrec. rewrite Hrec.
  apply Z.eqb_neq in Hfull. rewrite Hfull.
  unfold host_header.
  cbn [snd set_host_mem set_host_queue set_header set_hdr_queue set_message
       host_mem host_queues rg_header rg_messages hdr_numQueues hdr_queues
       hdr_heartbeat hdr_sessionID bookkeeping host_size host_avail host_nextFree
       host_started].
  unfold upd. rewrite !Z.eqb_refl.
  destruct (q_count (host_queues host qi) =? 0);
    cbn [q_index q_position q_count q_start q_msgTimeout q_timeout
         set_q_position set_q_count set_q_msgTimeout];
    rewrite ?Hidx, ?Z.eqb_refl;
    (repeat split; try reflexivity;
     try (unfold set_q_position, set_q_msgTimeout, set_q_count;
          cbn [q_index q_position q_count q_start q_msgTimeout q_timeout];
          rewrite Hidx; reflexivity);
     try (match goal with
          | Hk : _ <> _ |- _ => apply Z.eqb_neq in Hk; rewrite Hk; reflexivity
          end);
     try (intros a Ha; apply Z.eqb_neq in Ha; rewrite Ha; reflexivity)).
Qed.

(** The two early returns of [lgmpHostPost] leave the host as it was. *)
Lemma lgmpHostPost_returned host qi udata payload clock status :
  fst (lgmpHostPost host qi udata payload clock) = Some status ->
  snd (lgmpHostPost host qi udata payload clock) = host.
Proof.
  unfold lgmpHostPost.
  destruct (_ =? 0); [reflexivity|].
  destruct (_ =? _); [reflexivity | discriminate].
Qed.

Lemma lgmpHostMemAlloc_cases host size malloc_ok result :
  (lgmpHostMemAlloc host size malloc_ok result
   = (LGMP_OK, Some (mkMemory (host_nextFree host) size), bump host size)
   /\ size <= host_avail host /\ malloc_ok = true)
  \/ (exists status res, status <> LGMP_OK /\
        lgmpHostMemAlloc host size malloc_ok result = (status, res, host)).
Proof.
  unfold lgmpHostMemAlloc.
  destruct (Z.gtb_spec size (host_avail host)) as [Hgt|Hle].
  - right. exists LGMP_ERR_NO_SHARED_MEM, result. split; [discriminate | reflexivity].
  - destruct malloc_ok; cbn [negb].
    + left. repeat split. lia.
    + right. exists LGMP_ERR_NO_MEM, None. split; [discriminate | reflexivity].
Qed.

End CallEffects.

(** ** Invariants of the queue directory and of the rings *)

Section DirectoryInvariants.
Context {L : Layout}.

Lemma u32_le x : 0 <= x -> u32 x <= x.
Proof. intros Hx. unfold u32. apply Z.mod_le; [assumption | reflexivity]. Qed.

(** The body of the loop, queue by queue: the descriptor keeps its capacity,
    offset and write cursor; the host queue keeps its write cursor, and
    either its read cursor and count too, or the head message completes. *)
Lemma process_queue_cursors now host j host1 :
  process_queue now host j = Some host1 ->
  forall k,
    hq_numMessages (hdr_queues (host_header host1) k)
    = hq_numMessages (hdr_queues (host_header host) k) /\
    hq_messagesOffset (hdr_queues (host_header host1) k)
    = hq_messagesOffset (hdr_queues (host_header host) k) /\
    hq_position (hdr_queues (host_header host1) k)
    = hq_position (hdr_queues (host_header host) k) /\
    hq_queueID (hdr_queues (host_header host1) k)
    = hq_queueID (hdr_queues (host_header host) k) /\
    q_position (host_queues host1 k) = q_position (host_queues host k) /\
    ((q_start (host_queues host1 k) = q_start (host_queues host k) /\
      q_count (host_queues host1 k) = q_count (host_queues host k) /\
      q_msgTimeout (host_queues host1 k) = q_msgTimeout (host_queues host k))
     \/ (q_count (host_queues host k) <> 0 /\
         q_start (host_queues host1 k)
         = advance (q_start (host_queues host k))
                   (hq_numMessages (hdr_queues (host_header host) k)) /\
         q_count (host_queues host1 k) = u32 (q_count (host_queues host k) - 1))).
Proof.
  intros H k.
  destruct (process_queue_effect _ _ _ _ H) as (_ & _ & _ & _ & Hother & Hzero & Hown).
  destruct (Z.eq_dec k j) as [->|Hk].
  - destruct (Z.eq_dec (q_count (host_queues host j)) 0) as [Hz|Hnz].
    + rewrite (Hzero Hz). auto 10.
    + destruct (Hown Hnz) as [-> ->]. unfold tick_at.
      pose proof (process_locked_cursors now (host_queues host j)
                    (hdr_queues (host_header host) j) (head_message host j)) as Hc.
      cbv zeta in Hc. destruct Hc as (-> & -> & -> & -> & -> & [Hs|Hs]).
      * auto 10.
      * repeat split. right. tauto.
  - destruct (Hother k Hk) as [-> ->]. auto 10.
Qed.

Lemma post_keeps_numQueues host qi udata payload clock :
  hdr_numQueues (host_header (snd (lgmpHostPost host qi udata payload clock)))
  = hdr_numQueues (host_header host).
Proof.
  unfold lgmpHostPost.
  destruct (_ =? 0); [reflexivity|].
  destruct (_ =? _); reflexivity.
Qed.

Lemma lgmpHostProcess_numQueues host now status host' :
  lgmpHostProcess host now = Some (status, host') ->
  hdr_numQueues (host_header host') = hdr_numQueues (host_header host).
Proof.
  intros H.
  apply (lgmpHostProcess_invariant
           (fun h => hdr_numQueues (host_header h) = hdr_numQueues (host_header host))
           host now status host'); auto.
  intros h j h1 Hh H1. now rewrite (process_queue_numQueues _ _ _ _ H1).
Qed.

(** The count of queues after one step: as before, or one more after a
    successful [lgmpHostAddQueue]. *)
Lemma step_numQueues host host' :
  step host host' ->
  hdr_numQueues (host_header host') = hdr_numQueues (host_header host)
  \/ (hdr_numQueues (host_header host) <> LGMP_MAX_QUEUES /\
      hdr_numQueues (host_header host')
      = u32 (hdr_numQueues (host_header host) + 1)).
Proof.
  intros Hstep. destruct Hstep as
    [host queueID numMessages clock Hn | host size malloc_ok result Hsize
    | host qi udata payload clock Hqi | host now status host' Hproc
    | host i id Hi Hid | host i slot id Hi Hslot Hid].
  - destruct (lgmpHostAddQueue host queueID numMessages clock) as [[status res] host']
      eqn:Hadd. cbn [snd].
    destruct status;
      try (destruct (lgmpHostAddQueue_failed _ _ _ _ _ _ _ Hadd) as (_ & -> & _);
           [discriminate | now left]).
    apply lgmpHostAddQueue_ok in Hadd. right. tauto.
  - left. destruct (lgmpHostMemAlloc_cases host size malloc_ok result)
      as [(-> & _) | (status & res & _ & ->)]; reflexivity.
  - left. apply post_keeps_numQueues.
  - left. eapply lgmpHostProcess_numQueues; eassumption.
  - left. reflexivity.
  - left. reflexivity.
Qed.

Lemma reachable_numQueues host :
  0 <= LGMP_MAX_QUEUES -> reachable host ->
  0 <= hdr_numQueues (host_header host) <= LGMP_MAX_QUEUES.
Proof.
  intros Hmax. induction 1 as
    [mem size clock alloc rands host Hsize Hinit | host host' _ IH Hstep].
  - unfold lgmpHostInit in Hinit.
    destruct (size =? 0); [discriminate|].
    destruct (clock =? 0); [discriminate|].
    destruct (size <? sizeof_LGMPHeader); [discriminate|].
    destruct alloc as [h|]; [|discriminate].
    destruct (pick_sessionID rands _ _) as [sid|]; [|discriminate].
    injection Hinit as <-. unfold host_header. cbn. lia.
  - destruct (step_numQueues _ _ Hstep) as [->|[Hne ->]]; [assumption|].
    pose proof (u32_range (hdr_numQueues (host_header host) + 1)).
    pose proof (u32_le (hdr_numQueues (host_header host) + 1)).
    lia.
Qed.

Lemma reachable_nextFree host :
  reachable host -> sizeof_LGMPHeader <= host_nextFree host.
Proof.
  induction 1 as
    [mem size clock alloc rands host Hsize Hinit | host host' Hreach IH Hstep].
  - apply lgmpHostInit_ok in Hinit. lia.
  - destruct (step_bumped _ _ (reachable_accounting _ Hreach) Hstep)
      as (n & Hn & _ & -> & _). lia.
Qed.

(** The ring of every queue, step by step. *)
Lemma process_queue_ring_ok now host j host1 :
  ring_ok host -> process_queue now host j = Some host1 -> ring_ok host1.
Proof.
  intros Hring H i Hi.
  rewrite (process_queue_numQueues _ _ _ _ H) in Hi.
  destruct (process_queue_cursors _ _ _ _ H i) as (-> & _ & -> & _ & -> & Hq).
  destruct (Hring i Hi) as (Hnm & Hpos & Hcur).
  split; [assumption|]. split; [assumption|]. intros H1.
  destruct (Hcur H1) as (Hstart & Hcount & Hmod).
  destruct Hq as [(-> & -> & _) | (Hnz & -> & ->)]; [auto|].
  set (nm := hq_numMessages (hdr_queues (host_header host) i)) in *.
  set (start := q_start (host_queues host i)) in *.
  set (count := q_count (host_queues host i)) in *.
  rewrite u32_small by lia. unfold advance. rewrite u32_small by lia.
  destruct (Z.eqb_spec (start + 1) nm) as [Heq|Hne].
  - repeat split; try lia.
    rewrite Hmod. replace (start + count) with (count - 1 + 1 * nm) by lia.
    rewrite Z.mod_add by lia. reflexivity.
  - repeat split; try lia.
    rewrite Hmod. f_equal. lia.
Qed.

Lemma step_ring_ok host host' :
  queues_ok host -> ring_ok host -> step host host' -> ring_ok host'.
Proof.
  intros Hok Hring Hstep. destruct Hstep as
    [host queueID numMessages clock Hn | host size malloc_ok result Hsize
    | host qi udata payload clock Hqi | host now status host' Hproc
    | host i id Hi Hid | host i slot id Hi Hslot Hid].
  - destruct (lgmpHostAddQueue host queueID numMessages clock) as [[status res] host']
      eqn:Hadd. cbn [snd].
    destruct status;
      try (destruct (lgmpHostAddQueue_failed _ _ _ _ _ _ _ Hadd) as (_ & -> & _);
           [discriminate | assumption]).
    apply lgmpHostAddQueue_ok in Hadd.
    destruct Hadd as (_ & _ & _ & _ & Hn' & Hq & Hhq & Hother & _).
    destruct Hok as [Hn0 _].
    intros i Hi. rewrite Hn' in Hi.
    pose proof (u32_le (hdr_numQueues (host_header host) + 1)).
    destruct (Z.eq_dec i (hdr_numQueues (host_header host))) as [->|Hne].
    + rewrite Hq, Hhq. cbn.
      pose proof (u32_range (numMessages + 1)).
      repeat split; try lia; try (rewrite Z.mod_0_l; lia).
    + destruct (Hother i Hne) as [-> ->]. apply Hring. lia.
  - destruct (lgmpHostMemAlloc_cases host size malloc_ok result)
      as [(-> & _) | (status & res & _ & ->)]; exact Hring.
  - destruct (fst (lgmpHostPost host qi udata payload clock)) as [status|] eqn:Hst.
    + now rewrite (lgmpHostPost_returned _ _ _ _ _ _ Hst).
    + destruct Hok as [_ Hok]. destruct (Hok qi Hqi) as [_ Hidx].
      assert (Hrec : recipients (hq_subs (descriptor host qi)) <> 0).
      { intros Hz. unfold lgmpHostPost in Hst. fold (descriptor host qi) in Hst. fold (recipients (hq_subs (descriptor host qi))) in Hst. rewrite Hz in Hst. cbn in Hst.
        discriminate. }
      assert (Hfull : q_count (host_queues host qi)
                      <> u32 (hq_numMessages (descriptor host qi) - 1)).
      { intros Hz. unfold lgmpHostPost in Hst. fold (descriptor host qi) in Hst.
        fold (recipients (hq_subs (descriptor host qi))) in Hst.
        apply Z.eqb_neq in Hrec. rewrite Hrec in Hst.
        apply Z.eqb_eq in Hz. rewrite Hz in Hst. discriminate. }
      destruct (lgmpHostPost_written host qi udata payload clock Hrec Hfull Hidx)
        as (Hq & Hhq & Hother & _ & _ & _ & Hn & _).
      unfold descriptor in Hfull. rewrite Hidx in Hfull.
      intros i Hi. rewrite Hn in Hi.
      destruct (Z.eq_dec i qi) as [->|Hne].
      * rewrite Hq, Hhq. destruct (Hring qi Hi) as (Hnm & Hpos & Hcur).
        cbn. split; [assumption|]. split; [reflexivity|]. intros H1.
        destruct (Hcur H1) as (Hstart & Hcount & Hmod).
        set (nm := hq_numMessages (hdr_queues (host_header host) qi)) in *.
        rewrite u32_small in Hfull by lia.
        rewrite u32_small by lia. unfold advance.
        assert (Hp : 0 <= q_position (host_queues host qi) < nm)
          by (rewrite Hmod; apply Z.mod_pos_bound; lia).
        rewrite u32_small by lia.
        split; [assumption|]. split; [lia|].
        destruct (Z.eqb_spec (q_position (host_queues host qi) + 1) nm) as [Heq|Hneq].
        -- rewrite Z.add_assoc, <- Z.add_mod_idemp_l, <- Hmod, Heq by lia.
           rewrite Z.mod_same; lia.
        -- rewrite Z.add_assoc, <- Z.add_mod_idemp_l, <- Hmod by lia.
           rewrite Z.mod_small; lia.
      * destruct (Hother i Hne) as [-> ->]. now apply Hring.
  - apply (lgmpHostProcess_invariant ring_ok host now status host');
      [ intros h j h1 Hh H1; eapply process_queue_ring_ok; eassumption
      | intros h v Hh; exact Hh | assumption | assumption ].
  - intros k Hk. specialize (Hring k Hk).
    unfold client_subscribe, host_header in *. cbn in *. unfold upd.
    destruct (Z.eqb_spec k i) as [->|Hne]; exact Hring.
  - exact Hring.
Qed.

Lemma reachable_ring_ok host : reachable host -> ring_ok host.
Proof.
  induction 1 as
    [mem size clock alloc rands host Hsize Hinit | host host' Hreach IH Hstep].
  - pose proof (reachable_queues_ok host
                  (reach_init mem size clock alloc rands host Hsize Hinit)) as Hok.
    unfold lgmpHostInit in Hinit.
    destruct (size =? 0); [discriminate|].
    destruct (clock =? 0); [discriminate|].
    destruct (size <? sizeof_LGMPHeader); [discriminate|].
    destruct alloc as [h|]; [|discriminate].
    destruct (pick_sessionID rands _ _) as [sid|]; [|discriminate].
    injection Hinit as <-. intros i Hi. unfold host_header in Hi. cbn in Hi. lia.
  - eapply step_ring_ok; eauto using reachable_queues_ok.
Qed.

End DirectoryInvariants.

(** ** The slot arrays in the region *)

Section ArrayInvariants.
Context {L : Layout}.

Lemma post_keeps_descriptors host qi udata payload clock k :
  let host' := snd (lgmpHostPost host qi udata payload clock) in
  hq_numMessages (hdr_queues (host_header host') k)
  = hq_numMessages (hdr_queues (host_header host) k) /\
  hq_messagesOffset (hdr_queues (host_header host') k)
  = hq_messagesOffset (hdr_queues (host_header host) k) /\
  hq_queueID (hdr_queues (host_header host') k)
  = hq_queueID (hdr_queues (host_header host) k).
Proof.
  unfold lgmpHostPost.
  destruct (_ =? 0); [cbn; auto|].
  destruct (_ =? _); [cbn; auto|].
  unfold host_header.
  cbn [snd set_host_mem set_host_queue set_header set_hdr_queue set_message
       host_mem rg_header hdr_queues].
  unfold upd.
  destruct (q_count (host_queues host qi) =? 0);
    cbn [q_index set_q_position set_q_count set_q_msgTimeout];
    (destruct (k =? q_index (host_queues host qi)) eqn:Hk;
     [apply Z.eqb_eq in Hk; subst k; cbn; auto | auto]).
Qed.

Lemma lgmpHostProcess_descriptors host now status host' :
  lgmpHostProcess host now = Some (status, host') ->
  forall k,
    hq_numMessages (hdr_queues (host_header host') k)
    = hq_numMessages (hdr_queues (host_header host) k) /\
    hq_messagesOffset (hdr_queues (host_header host') k)
    = hq_messagesOffset (hdr_queues (host_header host) k) /\
    hq_queueID (hdr_queues (host_header host') k)
    = hq_queueID (hdr_queues (host_header host) k).
Proof.
  intros H.
  apply (lgmpHostProcess_invariant
           (fun h => forall k,
              hq_numMessages (hdr_queues (host_header h) k)
              = hq_numMessages (hdr_queues (host_header host) k) /\
              hq_messagesOffset (hdr_queues (host_header h) k)
              = hq_messagesOffset (hdr_queues (host_header host) k) /\
              hq_queueID (hdr_queues (host_header h) k)
              = hq_queueID (hdr_queues (host_header host) k))
           host now status host');
    [ | intros h v Hh; exact Hh | auto | assumption ].
  intros h j h1 Hh H1 k.
  destruct (process_queue_cursors _ _ _ _ H1 k) as (-> & -> & _ & -> & _).
  apply Hh.
Qed.

(** A step leaves the identifier, the capacity and the slot array of every
    queue created before it as they are. *)
Lemma step_descriptors host host' :
  step host host' ->
  forall k, 0 <= k < hdr_numQueues (host_header host) ->
    hq_numMessages (hdr_queues (host_header host') k)
    = hq_numMessages (hdr_queues (host_header host) k) /\
    hq_messagesOffset (hdr_queues (host_header host') k)
    = hq_messagesOffset (hdr_queues (host_header host) k) /\
    hq_queueID (hdr_queues (host_header host') k)
    = hq_queueID (hdr_queues (host_header host) k).
Proof.
  intros Hstep k Hk. destruct Hstep as
    [host queueID numMessages clock Hn | host size malloc_ok result Hsize
    | host qi udata payload clock Hqi | host now status host' Hproc
    | host i id Hi Hid | host i slot id Hi Hslot Hid].
  - destruct (lgmpHostAddQueue host queueID numMessages clock) as [[status res] host']
      eqn:Hadd. cbn [snd].
    destruct status;
      try (destruct (lgmpHostAddQueue_failed _ _ _ _ _ _ _ Hadd) as (_ & -> & _);
           [discriminate | auto]).
    apply lgmpHostAddQueue_ok in Hadd.
    destruct Hadd as (_ & _ & _ & _ & _ & _ & _ & Hother & _).
    destruct (Hother k) as [_ ->]; [lia | auto].
  - destruct (lgmpHostMemAlloc_cases host size malloc_ok result)
      as [(-> & _) | (status & res & _ & ->)]; cbn; auto.
  - apply post_keeps_descriptors.
  - eapply lgmpHostProcess_descriptors; eassumption.
  - unfold client_subscribe, host_header. cbn. unfold upd.
    destruct (Z.eqb_spec k i) as [->|Hne]; cbn; auto.
  - cbn. auto.
Qed.

Lemma arrays_ok_kept host host' :
  arrays_ok host ->
  hdr_numQueues (host_header host') = hdr_numQueues (host_header host) ->
  (forall k, 0 <= k < hdr_numQueues (host_header host) ->
     hq_numMessages (hdr_queues (host_header host') k)
     = hq_numMessages (hdr_queues (host_header host) k) /\
     hq_messagesOffset (hdr_queues (host_header host') k)
     = hq_messagesOffset (hdr_queues (host_header host) k) /\
     hq_queueID (hdr_queues (host_header host') k)
     = hq_queueID (hdr_queues (host_header host) k)) ->
  host_nextFree host <= host_nextFree host' ->
  arrays_ok host'.
Proof.
  intros Harr Hn Hdescr Hnext i Hi. rewrite Hn in *.
  destruct (Harr i Hi) as (Hhdr & Hend & Hpair).
  destruct (Hdescr i Hi) as (Hnm & Hoff & _).
  unfold slots_end in *. rewrite Hnm, Hoff.
  split; [assumption|]. split; [lia|].
  intros j Hj. destruct (Hdescr j) as (_ & -> & _); [lia|]. now apply Hpair.
Qed.

Lemma step_arrays_ok host host' :
  sizeof_LGMPHeaderMessage <= 2 ^ 32 ->
  queues_ok host -> accounting host -> sizeof_LGMPHeader <= host_nextFree host ->
  arrays_ok host -> step host host' -> arrays_ok host'.
Proof.
  intros Hsz Hok Hacc Hfree Harr Hstep.
  assert (Hgen : hdr_numQueues (host_header host') = hdr_numQueues (host_header host) ->
                 arrays_ok host').
  { intros Hn. apply (arrays_ok_kept host host' Harr Hn).
    - now apply step_descriptors.
    - destruct (step_bumped _ _ Hacc Hstep) as (n & Hn0 & _ & -> & _). lia. }
  destruct Hstep as
    [host queueID numMessages clock Hn | host size malloc_ok result Hsize
    | host qi udata payload clock Hqi | host now status host' Hproc
    | host i id Hi Hid | host i slot id Hi Hslot Hid].
  - destruct (lgmpHostAddQueue host queueID numMessages clock) as [[status res] host']
      eqn:Hadd. cbn [snd] in *.
    destruct status;
      try (destruct (lgmpHostAddQueue_failed _ _ _ _ _ _ _ Hadd) as (_ & -> & _);
           [discriminate | assumption]).
    clear Hgen. apply lgmpHostAddQueue_ok in Hadd.
    destruct Hadd as (_ & _ & Hfit & _ & Hn' & _ & Hhq & Hother & _ & _ & _ & Hbump).
    apply (f_equal host_nextFree) in Hbump. cbn in Hbump.
    destruct Hok as [Hn0 _].
    destruct Hacc as (Hsum & Hnext0 & Havail0 & Hsize).
    pose proof sizeof_LGMPHeaderMessage_pos as Hpos.
    pose proof (u32_range (numMessages + 1)) as Hnm.
    set (nm := u32 (numMessages + 1)) in *.
    assert (Hprod : 0 <= sizeof_LGMPHeaderMessage * nm < 2 ^ 64).
    { split; [apply Z.mul_nonneg_nonneg; lia|].
      apply Z.le_lt_trans with (2 ^ 32 * (2 ^ 32 - 1)); [|reflexivity].
      apply Z.mul_le_mono_nonneg; lia. }
    unfold usize in *. rewrite (u64_small _ Hprod) in *.
    rewrite u64_small in Hbump by lia.
    pose proof (u32_le (hdr_numQueues (host_header host) + 1)) as Hle.
    intros i Hi. rewrite Hn' in Hi.
    destruct (Z.eq_dec i (hdr_numQueues (host_header host))) as [->|Hne].
    + rewrite Hhq. unfold slots_end. cbn [hq_messagesOffset hq_numMessages].
      split; [assumption|]. split; [lia|]. intros j Hj. rewrite Hn' in Hj. lia.
    + assert (Hi' : 0 <= i < hdr_numQueues (host_header host)) by lia.
      destruct (Hother i Hne) as [_ ->].
      destruct (Harr i Hi') as (Hhdr & Hend & Hpair).
      split; [assumption|]. split; [lia|]. intros j Hj. rewrite Hn' in Hj.
      destruct (Z.eq_dec j (hdr_numQueues (host_header host))) as [->|Hnj].
      * rewrite Hhq. cbn [hq_messagesOffset]. assumption.
      * destruct (Hother j Hnj) as [_ ->]. apply Hpair. lia.
  - apply Hgen. destruct (lgmpHostMemAlloc_cases host size malloc_ok result)
      as [(-> & _) | (status & res & _ & ->)]; reflexivity.
  - apply Hgen. apply post_keeps_numQueues.
  - apply Hgen. eapply lgmpHostProcess_numQueues; eassumption.
  - apply Hgen. reflexivity.
  - apply Hgen. reflexivity.
Qed.

Lemma reachable_arrays_ok host :
  sizeof_LGMPHeaderMessage <= 2 ^ 32 -> reachable host -> arrays_ok host.
Proof.
  intros Hsz. induction 1 as
    [mem size clock alloc rands host Hsize Hinit | host host' Hreach IH Hstep].
  - unfold lgmpHostInit in Hinit.
    destruct (size =? 0); [discriminate|].
    destruct (clock =? 0); [discriminate|].
    destruct (size <? sizeof_LGMPHeader); [discriminate|].
    destruct alloc as [h|]; [|discriminate].
    destruct (pick_sessionID rands _ _) as [sid|]; [|discriminate].
    injection Hinit as <-. intros i Hi. unfold host_header in Hi. cbn in Hi. lia.
  - eapply step_arrays_ok; eauto using reachable_queues_ok, reachable_accounting,
      reachable_nextFree.
Qed.

(** The head slots of two different queues with slots lie at different
    addresses. *)
Lemma arrays_heads_apart host i j :
  arrays_ok host -> ring_ok host ->
  0 <= i < hdr_numQueues (host_header host) ->
  0 <= j < hdr_numQueues (host_header host) ->
  1 <= hq_numMessages (hdr_queues (host_header host) i) ->
  1 <= hq_numMessages (hdr_queues (host_header host) j) ->
  i < j -> head_addr host i < head_addr host j.
Proof.
  intros Harr Hring Hi Hj Hnmi Hnmj Hij.
  destruct (Harr i Hi) as (_ & _ & Hpair). specialize (Hpair j (conj Hij (proj2 Hj))).
  destruct (Hring i Hi) as (_ & _ & Hci). destruct (Hci Hnmi) as (Hsi & _ & _).
  destruct (Hring j Hj) as (_ & _ & Hcj). destruct (Hcj Hnmj) as (Hsj & _ & _).
  unfold head_addr, msg_addr, slots_end in *.
  pose proof sizeof_LGMPHeaderMessage_pos as Hpos.
  assert (sizeof_LGMPHeaderMessage * q_start (host_queues host i)
          < sizeof_LGMPHeaderMessage * hq_numMessages (hdr_queues (host_header host) i))
    by (apply Z.mul_lt_mono_pos_l; lia).
  assert (0 <= sizeof_LGMPHeaderMessage * q_start (host_queues host j))
    by (apply Z.mul_nonneg_nonneg; lia).
  lia.
Qed.

End ArrayInvariants.

(** ** The queue directory and the allocator, as a caller sees them *)

Section DirectoryProperties.
Context {L : Layout}.

Lemma steps_reachable host host' :
  reachable host -> steps host host' -> reachable host'.
Proof.
  intros Hreach Hsteps. induction Hsteps as [host | host host' host'' _ IH Hstep].
  - assumption.
  - apply (reach_step host' host''); [apply IH; assumption | assumption].
Qed.

Lemma steps_nextFree host host' :
  reachable host -> steps host host' -> host_nextFree host <= host_nextFree host'.
Proof.
  intros Hreach Hsteps. induction Hsteps as [host | host host' host'' Hsteps IH Hstep].
  - lia.
  - specialize (IH Hreach).
    pose proof (reachable_accounting _ (steps_reachable _ _ Hreach Hsteps)) as Hacc.
    destruct (step_bumped _ _ Hacc Hstep) as (n & Hn & _ & -> & _). lia.
Qed.

(** X1.  The count of queues never leaves [0, LGMP_MAX_QUEUES]: the slot of
    [host->queues] and of [header->queues] that [lgmpHostAddQueue] writes is
    always inside the two arrays. *)
Theorem queue_directory_bounded :
  forall host,
    0 <= LGMP_MAX_QUEUES -> reachable host ->
    0 <= hdr_numQueues (host_header host) <= LGMP_MAX_QUEUES.
Proof. intros host Hmax Hreach. now apply reachable_numQueues. Qed.


(** X3.  A queue just created has no subscriber, so a post on the handle
    [lgmpHostAddQueue] returned is the no-op that returns LGMP_OK. *)
Theorem post_on_fresh_queue_is_noop :
  forall host queueID numMessages clock handle host' udata payload clock',
    lgmpHostAddQueue host queueID numMessages clock = (LGMP_OK, Some handle, host') ->
    lgmpHostPost host' handle udata payload clock' = (Some LGMP_OK, host').
Proof.
  intros host queueID numMessages clock handle host' udata payload clock' Hadd.
  apply lgmpHostAddQueue_ok in Hadd.
  destruct Hadd as (_ & _ & _ & Hres & _ & Hq & Hhq & _).
  injection Hres as ->.
  unfold lgmpHostPost. rewrite Hq. cbn [q_index]. rewrite Hhq. reflexivity.
Qed.


Lemma steps_numQueues host host' :
  0 <= LGMP_MAX_QUEUES < 2 ^ 32 -> reachable host -> steps host host' ->
  hdr_numQueues (host_header host) <= hdr_numQueues (host_header host').
Proof.
  intros Hmax Hreach Hsteps.
  induction Hsteps as [host | host host' host'' Hsteps IH Hstep].
  - lia.
  - specialize (IH Hreach).
    pose proof (reachable_numQueues host' (proj1 Hmax)
                  (steps_reachable _ _ Hreach Hsteps)) as Hn.
    destruct (step_numQueues _ _ Hstep) as [->|[Hne ->]]; [assumption|].
    rewrite u32_small by lia. lia.
Qed.

(** X5.  Once created, a queue keeps its identifier, its capacity and the
    offset of its slot array through every later call and subscriber
    action, and stays in the directory. *)
Theorem descriptor_fixed_after_creation :
  forall host host' k,
    0 <= LGMP_MAX_QUEUES < 2 ^ 32 ->
    reachable host -> steps host host' ->
    0 <= k < hdr_numQueues (host_header host) ->
    0 <= k < hdr_numQueues (host_header host') /\
    hq_queueID (hdr_queues (host_header host') k)
    = hq_queueID (hdr_queues (host_header host) k) /\
    hq_numMessages (hdr_queues (host_header host') k)
    = hq_numMessages (hdr_queues (host_header host) k) /\
    hq_messagesOffset (hdr_queues (host_header host') k)
    = hq_messagesOffset (hdr_queues (host_header host) k).
Proof.
  intros host host' k Hmax Hreach Hsteps Hk.
  induction Hsteps as [host | host host' host'' Hsteps IH Hstep].
  - auto.
  - destruct (IH Hreach Hk) as (Hk' & Hid & Hnm & Hoff).
    destruct (step_descriptors _ _ Hstep k Hk') as (-> & -> & ->).
    pose proof (steps_numQueues host' host'' Hmax
                  (steps_reachable _ _ Hreach Hsteps)
                  (steps_step host' host' host'' (steps_refl host') Hstep)).
    repeat split; try assumption; lia.
Qed.

(** X6.  A block [lgmpHostMemAlloc] hands out lies in the region, after the
    header: it starts at the old [nextFree], has the requested size, and
    ends at the new [nextFree], which does not exceed [size]. *)
Theorem payload_block_in_bounds :
  forall host size malloc_ok result mem host',
    reachable host -> 0 <= size < 2 ^ 32 ->
    lgmpHostMemAlloc host size malloc_ok result = (LGMP_OK, Some mem, host') ->
    mem_size mem = size /\
    sizeof_LGMPHeader <= mem_offset mem /\
    mem_offset mem + mem_size mem = host_nextFree host' /\
    host_nextFree host' <= host_size host.
Proof.
  intros host size malloc_ok result mem host' Hreach Hsize Halloc.
  pose proof (reachable_accounting _ Hreach) as (Hsum & Hnext & Havail & Hsz).
  pose proof (reachable_nextFree _ Hreach) as Hhdr.
  destruct (lgmpHostMemAlloc_cases host size malloc_ok result)
    as [(Heq & Hfit & _) | (status & res & Hst & Heq)]; rewrite Heq in Halloc.
  - injection Halloc as <- <-. unfold bump, usize. cbn.
    rewrite u64_small by lia. repeat split; lia.
  - injection Halloc as -> _ _. contradiction.
Qed.

(** X7.  Two blocks handed out by [lgmpHostMemAlloc], whatever happens
    between the two calls, do not overlap: the later one starts at or after
    the end of the earlier one. *)
Theorem payload_blocks_disjoint :
  forall host size1 ok1 res1 mem1 host1 host2 size2 ok2 res2 mem2 host3,
    reachable host -> 0 <= size1 < 2 ^ 32 ->
    lgmpHostMemAlloc host size1 ok1 res1 = (LGMP_OK, Some mem1, host1) ->
    steps host1 host2 ->
    lgmpHostMemAlloc host2 size2 ok2 res2 = (LGMP_OK, Some mem2, host3) ->
    mem_offset mem1 + mem_size mem1 <= mem_offset mem2.
Proof.
  intros host size1 ok1 res1 mem1 host1 host2 size2 ok2 res2 mem2 host3
         Hreach Hsize1 Halloc1 Hsteps Halloc2.
  assert (Hreach1 : reachable host1).
  { eapply reach_step; [exact Hreach|].
    replace host1 with (snd (lgmpHostMemAlloc host size1 ok1 res1)) by now rewrite Halloc1.
    now apply step_memAlloc. }
  pose proof (steps_nextFree _ _ Hreach1 Hsteps) as Hmono.
  pose proof (reachable_accounting _ Hreach) as (Hsum & Hnext & Havail & Hsz).
  destruct (lgmpHostMemAlloc_cases host size1 ok1 res1)
    as [(Heq & Hfit & _) | (status & res & Hst & Heq)]; rewrite Heq in Halloc1;
    [|injection Halloc1 as -> _ _; contradiction].
  injection Halloc1 as <- <-.
  destruct (lgmpHostMemAlloc_cases host2 size2 ok2 res2)
    as [(Heq2 & _) | (status & res & Hst & Heq2)]; rewrite Heq2 in Halloc2;
    [|injection Halloc2 as -> _ _; contradiction].
  injection Halloc2 as <- _.
  unfold bump, usize in Hmono. cbn in *. rewrite u64_small in Hmono by lia. lia.
Qed.

(** X8.  The slot array of every queue lies in the region after the header,
    the arrays follow one another in the order of creation without
    overlapping, and none reaches into the bytes still free. *)
Theorem slot_arrays_in_bounds :
  forall host i,
    sizeof_LGMPHeaderMessage <= 2 ^ 32 -> reachable host ->
    0 <= i < hdr_numQueues (host_header host) ->
    sizeof_LGMPHeader <= hq_messagesOffset (hdr_queues (host_header host) i) /\
    slots_end (hdr_queues (host_header host) i) <= host_nextFree host /\
    host_nextFree host <= host_size host /\
    forall j, i < j < hdr_numQueues (host_header host) ->
      slots_end (hdr_queues (host_header host) i)
      <= hq_messagesOffset (hdr_queues (host_header host) j).
Proof.
  intros host i Hsz Hreach Hi.
  destruct (reachable_arrays_ok host Hsz Hreach i Hi) as (Hhdr & Hend & Hpair).
  pose proof (reachable_accounting _ Hreach) as (Hsum & Hnext & Havail & _).
  repeat split; try assumption; lia.
Qed.

End DirectoryProperties.

(** ** The ring of a queue, as a caller sees it *)

Section RingProperties.
Context {L : Layout}.

(** The path of [lgmpHostPost] without a status is the one that writes. *)
Lemma lgmpHostPost_wrote host qi udata payload clock :
  fst (lgmpHostPost host qi udata payload clock) = None ->
  recipients (hq_subs (descriptor host qi)) <> 0 /\
  q_count (host_queues host qi) <> u32 (hq_numMessages (descriptor host qi) - 1).
Proof.
  unfold lgmpHostPost. fold (descriptor host qi).
  fold (recipients (hq_subs (descriptor host qi))).
  destruct (Z.eqb_spec (recipients (hq_subs (descriptor host qi))) 0); [discriminate|].
  destruct (Z.eqb_spec (q_count (host_queues host qi))
              (u32 (hq_numMessages (descriptor host qi) - 1))); [discriminate|].
  auto.
Qed.

(** X9.  In a queue with at least one slot the read cursor and the write
    cursor stay inside the slot array, at most [numMessages - 1] messages
    are outstanding, the write cursor is [count] slots ahead of the read
    cursor, circularly, and the shared write cursor equals the host's. *)
Theorem ring_cursors_in_range :
  forall host i,
    reachable host ->
    0 <= i < hdr_numQueues (host_header host) ->
    1 <= hq_numMessages (hdr_queues (host_header host) i) ->
    0 <= q_start (host_queues host i) < hq_numMessages (hdr_queues (host_header host) i) /\
    0 <= q_position (host_queues host i) < hq_numMessages (hdr_queues (host_header host) i) /\
    0 <= q_count (host_queues host i) <= hq_numMessages (hdr_queues (host_header host) i) - 1 /\
    q_position (host_queues host i)
    = (q_start (host_queues host i) + q_count (host_queues host i))
        mod hq_numMessages (hdr_queues (host_header host) i) /\
    hq_position (hdr_queues (host_header host) i) = q_position (host_queues host i).
Proof.
  intros host i Hreach Hi Hnm.
  destruct (reachable_ring_ok host Hreach i Hi) as (_ & Hpos & Hcur).
  destruct (Hcur Hnm) as (Hstart & Hcount & Hmod).
  repeat split; try assumption; try lia.
  - rewrite Hmod. apply Z.mod_pos_bound. lia.
  - rewrite Hmod. apply Z.mod_pos_bound. lia.
Qed.

Lemma reachable_heads_apart host i :
  sizeof_LGMPHeaderMessage <= 2 ^ 32 ->
  reachable host -> queues_have_slots host ->
  0 <= i < hdr_numQueues (host_header host) ->
  heads_apart host i.
Proof.
  intros Hsz Hreach Hslots Hi j Hj Hne _.
  pose proof (reachable_arrays_ok host Hsz Hreach) as Harr.
  pose proof (reachable_ring_ok host Hreach) as Hring.
  destruct (Z.lt_total i j) as [Hlt|[Heq|Hgt]].
  - pose proof (arrays_heads_apart host i j Harr Hring Hi Hj (Hslots i Hi) (Hslots j Hj) Hlt).
    lia.
  - congruence.
  - pose proof (arrays_heads_apart host j i Harr Hring Hj Hi (Hslots j Hj) (Hslots i Hi) Hgt).
    lia.
Qed.


Lemma msg_addr_inj hq x y : msg_addr hq x = msg_addr hq y -> x = y.
Proof.
  unfold msg_addr. intros H. pose proof sizeof_LGMPHeaderMessage_pos.
  apply (Z.mul_reg_l _ _ sizeof_LGMPHeaderMessage); lia.
Qed.

Lemma ring_slots_differ start count k nm :
  0 <= k < count -> count < nm ->
  (start + k) mod nm <> (start + count) mod nm.
Proof.
  intros Hk Hcount Heq.
  assert (H0 : (count - k) mod nm = 0).
  { replace (count - k) with ((start + count) - (start + k)) by lia.
    rewrite Zminus_mod, Heq, Z.sub_diag. apply Z.mod_0_l. lia. }
  rewrite Z.mod_small in H0 by lia. lia.
Qed.

(** Slots of two different queues, each inside its array, lie at different
    addresses. *)
Lemma slots_apart host i j x y :
  arrays_ok host ->
  0 <= i < hdr_numQueues (host_header host) ->
  0 <= j < hdr_numQueues (host_header host) ->
  i <> j ->
  0 <= x < hq_numMessages (hdr_queues (host_header host) i) ->
  0 <= y < hq_numMessages (hdr_queues (host_header host) j) ->
  msg_addr (hdr_queues (host_header host) i) x
  <> msg_addr (hdr_queues (host_header host) j) y.
Proof.
  intros Harr Hi Hj Hne Hx Hy.
  pose proof sizeof_LGMPHeaderMessage_pos as Hpos.
  assert (Hlt : forall a b u w,
            0 <= a < hdr_numQueues (host_header host) ->
            0 <= b < hdr_numQueues (host_header host) -> a < b ->
            0 <= u < hq_numMessages (hdr_queues (host_header host) a) -> 0 <= w ->
            msg_addr (hdr_queues (host_header host) a) u
            < msg_addr (hdr_queues (host_header host) b) w).
  { intros a b u w Ha Hb Hab Hu Hw.
    destruct (Harr a Ha) as (_ & _ & Hpair).
    specialize (Hpair b (conj Hab (proj2 Hb))).
    unfold msg_addr, slots_end in *.
    assert (sizeof_LGMPHeaderMessage * u
            < sizeof_LGMPHeaderMessage * hq_numMessages (hdr_queues (host_header host) a))
      by (apply Z.mul_lt_mono_pos_l; lia).
    assert (0 <= sizeof_LGMPHeaderMessage * w) by (apply Z.mul_nonneg_nonneg; lia).
    lia. }
  destruct (Z.lt_total i j) as [Hij|[Hij|Hij]].
  - pose proof (Hlt i j x y Hi Hj Hij Hx (proj1 Hy)). lia.
  - contradiction.
  - pose proof (Hlt j i y x Hj Hi Hij Hy (proj1 Hx)). lia.
Qed.

(** X11.  In a host all of whose queues have at least one slot, a post that
    writes writes one slot of the queue's own array, inside the region and
    after the header; the slot holds none of the outstanding messages of
    the queue, and every other slot of every queue keeps its content. *)
Theorem post_writes_free_slot :
  forall host qi udata payload clock,
    sizeof_LGMPHeaderMessage <= 2 ^ 32 ->
    reachable host -> queues_have_slots host ->
    0 <= qi < hdr_numQueues (host_header host) ->
    fst (lgmpHostPost host qi udata payload clock) = None ->
    sizeof_LGMPHeader
    <= msg_addr (hdr_queues (host_header host) qi) (q_position (host_queues host qi)) /\
    hq_messagesOffset (hdr_queues (host_header host) qi)
    <= msg_addr (hdr_queues (host_header host) qi) (q_position (host_queues host qi)) /\
    msg_addr (hdr_queues (host_header host) qi) (q_position (host_queues host qi))
    + sizeof_LGMPHeaderMessage
    <= slots_end (hdr_queues (host_header host) qi) /\
    slots_end (hdr_queues (host_header host) qi) <= host_size host /\
    (forall k, 0 <= k < q_count (host_queues host qi) ->
       (q_start (host_queues host qi) + k)
         mod hq_numMessages (hdr_queues (host_header host) qi)
       <> q_position (host_queues host qi)) /\
    (forall j k,
       0 <= j < hdr_numQueues (host_header host) ->
       0 <= k < hq_numMessages (hdr_queues (host_header host) j) ->
       j <> qi \/ k <> q_position (host_queues host qi) ->
       rg_messages (host_mem (snd (lgmpHostPost host qi udata payload clock)))
                   (msg_addr (hdr_queues (host_header host) j) k)
       = rg_messages (host_mem host) (msg_addr (hdr_queues (host_header host) j) k)).
Proof.
  intros host qi udata payload clock Hsz Hreach Hslots Hqi Hwrote.
  pose proof (Hslots qi Hqi) as Hnm.
  destruct (reachable_queues_ok host Hreach) as [_ Hok].
  destruct (Hok qi Hqi) as [_ Hidx].
  destruct (lgmpHostPost_wrote _ _ _ _ _ Hwrote) as [Hrec Hfull].
  destruct (lgmpHostPost_written host qi udata payload clock Hrec Hfull Hidx)
    as (_ & _ & _ & _ & Hframe & _).
  destruct (reachable_ring_ok host Hreach qi Hqi) as (_ & _ & Hcur).
  destruct (Hcur Hnm) as (Hstart & Hcount & Hmod).
  pose proof (reachable_arrays_ok host Hsz Hreach) as Harr.
  destruct (Harr qi Hqi) as (Hhdr & Hend & _).
  pose proof (reachable_accounting _ Hreach) as (Hsum & Hnext & Havail & _).
  pose proof sizeof_LGMPHeaderMessage_pos as Hpos.
  set (nm := hq_numMessages (hdr_queues (host_header host) qi)) in *.
  assert (Hp : 0 <= q_position (host_queues host qi) < nm)
    by (rewrite Hmod; apply Z.mod_pos_bound; lia).
  assert (Hlo : 0 <= sizeof_LGMPHeaderMessage * q_position (host_queues host qi))
    by (apply Z.mul_nonneg_nonneg; lia).
  assert (Hhi : sizeof_LGMPHeaderMessage * (q_position (host_queues host qi) + 1)
                <= sizeof_LGMPHeaderMessage * nm)
    by (apply Z.mul_le_mono_nonneg_l; lia).
  split; [unfold msg_addr; lia|]. split; [unfold msg_addr; lia|].
  split; [unfold msg_addr, slots_end in *; fold nm; lia|].
  split; [unfold slots_end in *; fold nm in Hend |- *; lia|].
  split.
  - intros k Hk. rewrite Hmod. apply ring_slots_differ; lia.
  - intros j k Hj Hk Hother. apply Hframe.
    destruct (Z.eq_dec j qi) as [->|Hne].
    + intros Heq. apply msg_addr_inj in Heq. destruct Hother; congruence.
    + apply slots_apart; auto.
Qed.

(** X12.  In a host reached by the calls, a post that writes, in a queue with
    at least one slot, adds one to the count, which stays below
    [numMessages], keeps the read cursor, moves both write cursors one slot
    on, circularly, restarts the head deadline (clock + 150 ms, within 64
    bits) when the queue was empty and keeps it otherwise, and leaves the
    host queues and the descriptors of the other queues as they were. *)
Theorem post_advances_ring :
  forall host qi udata payload clock,
    reachable host ->
    0 <= qi < hdr_numQueues (host_header host) ->
    1 <= hq_numMessages (hdr_queues (host_header host) qi) ->
    fst (lgmpHostPost host qi udata payload clock) = None ->
    let host' := snd (lgmpHostPost host qi udata payload clock) in
    q_count (host_queues host' qi) = q_count (host_queues host qi) + 1 /\
    q_count (host_queues host' qi) < hq_numMessages (hdr_queues (host_header host) qi) /\
    q_start (host_queues host' qi) = q_start (host_queues host qi) /\
    q_position (host_queues host' qi)
    = (q_position (host_queues host qi) + 1)
        mod hq_numMessages (hdr_queues (host_header host) qi) /\
    hq_position (hdr_queues (host_header host') qi) = q_position (host_queues host' qi) /\
    q_msgTimeout (host_queues host' qi)
    = (if q_count (host_queues host qi) =? 0
       then u64 (clock + LGMP_MAX_MESSAGE_AGE)
       else q_msgTimeout (host_queues host qi)) /\
    (forall k, k <> qi ->
       host_queues host' k = host_queues host k /\
       hdr_queues (host_header host') k = hdr_queues (host_header host) k).
Proof.
  intros host qi udata payload clock Hreach Hqi Hnm Hwrote.
  destruct (reachable_queues_ok host Hreach) as [_ Hok].
  destruct (Hok qi Hqi) as [_ Hidx].
  destruct (lgmpHostPost_wrote _ _ _ _ _ Hwrote) as [Hrec Hfull].
  destruct (lgmpHostPost_written host qi udata payload clock Hrec Hfull Hidx)
    as (Hq & Hhq & Hother & _).
  destruct (reachable_ring_ok host Hreach qi Hqi) as (Hrange & _ & Hcur).
  destruct (Hcur Hnm) as (Hstart & Hcount & Hmod).
  unfold descriptor in Hfull. rewrite Hidx in Hfull.
  set (nm := hq_numMessages (hdr_queues (host_header host) qi)) in *.
  rewrite u32_small in Hfull by lia.
  assert (Hp : 0 <= q_position (host_queues host qi) < nm)
    by (rewrite Hmod; apply Z.mod_pos_bound; lia).
  cbv zeta. rewrite Hq, Hhq.
  cbn [q_count q_start q_position q_msgTimeout hq_position set_hq_position].
  rewrite u32_small by lia.
  assert (Hadv : advance (q_position (host_queues host qi)) nm
                 = (q_position (host_queues host qi) + 1) mod nm).
  { unfold advance. rewrite u32_small by lia.
    destruct (Z.eqb_spec (q_position (host_queues host qi) + 1) nm) as [Heq|Hneq].
    - rewrite Heq, Z.mod_same; lia.
    - rewrite Z.mod_small; lia. }
  rewrite Hadv. repeat split; try lia; try reflexivity.
  - now destruct (Hother k H).
  - now destruct (Hother k H).
Qed.

End RingProperties.

(** ** The tick, as a caller sees it *)

Section TickEffects.
Context {L : Layout}.

(** The subscriber word the critical section stores: the word it loaded,
    or that word with the lagging recipients flagged, reaped. *)
Lemma process_locked_subs now queue hq msg :
  exists subs1 timeout,
    hq_subs (snd (fst (process_locked now queue hq msg))) = reaped subs1 now timeout /\
    (subs1 = hq_subs hq
     \/ subs1 = LGMP_SUBS_OR_BAD (hq_subs hq)
                                 (lagging (hq_subs hq) (msg_pendingSubs msg))).
Proof.
  destruct (Z.eq_dec (lagging (hq_subs hq) (msg_pendingSubs msg)) 0) as [Hz|Hlag].
  - rewrite process_locked_acked by assumption. cbn [fst snd hq_subs set_subs_unlock].
    eauto.
  - destruct (Z.lt_ge_cases (q_msgTimeout queue) now) as [Hnow|Hnow].
    + rewrite process_locked_expired by (assumption || lia).
      cbn [fst snd hq_subs set_subs_unlock]. eauto.
    + rewrite process_locked_waiting by assumption.
      cbn [fst snd hq_subs set_subs_unlock]. eauto.
Qed.

Lemma subscribed_reaped subs now timeout id :
  0 <= id < 32 ->
  subscribed (reaped subs now timeout) id = true -> subscribed subs id = true.
Proof.
  intros Hid. destruct (Z.eq_dec (LGMP_SUBS_ON subs) 0) as [Hz|Hnz].
  - now rewrite reaped_nobody.
  - destruct (reaped_spec subs now timeout id Hid Hnz) as [_ ->].
    intros H. apply andb_true_iff in H. tauto.
Qed.

(** With the head slots of the other queues at other addresses: while a
    recipient that is not flagged bad is pending and the clock has not
    passed the head deadline, the tick leaves the queue and its head message
    as they are. *)
Lemma waits_when_heads_apart :
  forall host now status host' i,
    lgmpHostProcess host now = Some (status, host') ->
    0 <= i < hdr_numQueues (host_header host) ->
    q_count (host_queues host i) <> 0 ->
    heads_apart host i ->
    lagging (hq_subs (hdr_queues (host_header host) i))
            (msg_pendingSubs (head_message host i)) <> 0 ->
    now <= q_msgTimeout (host_queues host i) ->
    host_queues host' i = host_queues host i /\
    rg_messages (host_mem host') (head_addr host i) = head_message host i.
Proof.
  intros host now status host' i Hret Hi Hnz Hapart Hlag Hnow.
  destruct (lgmpHostProcess_at _ _ _ _ i Hret Hi Hnz Hapart) as [_ Hview].
  unfold view, tick_at in Hview.
  rewrite process_locked_waiting in Hview by assumption.
  injection Hview as -> _ ->. auto.
Qed.

(** X14.  The tick passes over a queue without outstanding message: its
    cursors, its deadlines and its subscriber word stay as they are, so no
    subscriber of such a queue is reaped, whatever its deadline. *)
Theorem tick_skips_empty_queue :
  forall host now status host' i,
    lgmpHostProcess host now = Some (status, host') ->
    q_count (host_queues host i) = 0 ->
    host_queues host' i = host_queues host i /\
    hdr_queues (host_header host') i = hdr_queues (host_header host) i.
Proof.
  intros host now status host' i Hret Hz.
  apply (lgmpHostProcess_invariant
           (fun h => host_queues h i = host_queues host i /\
                     hdr_queues (host_header h) i = hdr_queues (host_header host) i)
           host now status host');
    [ | intros h v Hh; exact Hh | auto | assumption ].
  intros h j h1 [Hq Hhq] H1.
  destruct (process_queue_effect _ _ _ _ H1) as (_ & _ & _ & _ & Hother & Hzero & _).
  destruct (Z.eq_dec i j) as [<-|Hne].
  - rewrite Hzero by (rewrite Hq; assumption). auto.
  - destruct (Hother i Hne) as [-> ->]. auto.
Qed.

(** X15.  A tick that returns returns LGMP_OK, has added one to the
    heartbeat (modulo 2^32), and has left the sessionID, the count of queues
    and the allocator as they were. *)
Theorem tick_increments_heartbeat :
  forall host now status host',
    lgmpHostProcess host now = Some (status, host') ->
    status = LGMP_OK /\
    hdr_heartbeat (host_header host') = u32 (hdr_heartbeat (host_header host) + 1) /\
    hdr_sessionID (host_header host') = hdr_sessionID (host_header host) /\
    hdr_numQueues (host_header host') = hdr_numQueues (host_header host) /\
    bookkeeping host' = bookkeeping host.
Proof.
  intros host now status host' Hret. unfold lgmpHostProcess in Hret.
  destruct (process_queues _ _ _) as [host1|] eqn:H1; [|discriminate].
  injection Hret as <- <-. split; [reflexivity|].
  apply (process_queues_invariant
           (fun h => hdr_heartbeat (host_header h)
                     = u32 (hdr_heartbeat (host_header host) + 1) /\
                     hdr_sessionID (host_header h) = hdr_sessionID (host_header host) /\
                     hdr_numQueues (host_header h) = hdr_numQueues (host_header host) /\
                     bookkeeping h = bookkeeping host) now) in H1.
  - exact H1.
  - intros h j h1 (Hb & Hs & Hn & Hk) Hj.
    destruct (process_queue_effect _ _ _ _ Hj) as (-> & -> & -> & -> & _). auto.
  - repeat split.
Qed.

(** The tick keeps the slot at every address that is not the head address of
    a queue with an outstanding message. *)
Lemma tick_keeps_other_addresses :
  forall host now status host' a,
    lgmpHostProcess host now = Some (status, host') ->
    (forall j, 0 <= j < hdr_numQueues (host_header host) ->
       q_count (host_queues host j) <> 0 -> head_addr host j <> a) ->
    rg_messages (host_mem host') a = rg_messages (host_mem host) a.
Proof.
  intros host now status host' a Hret Ha. unfold lgmpHostProcess in Hret.
  destruct (process_queues _ _ _) as [host1|] eqn:H1; [|discriminate].
  injection Hret as _ <-.
  apply (process_queues_frame _ _ _ _ (-1) a) in H1.
  - unfold view in H1. now injection H1 as _ _ ->.
  - apply NoDup_indices.
  - intros Hin. apply in_indices in Hin. lia.
  - intros j Hj. apply in_indices in Hj. now apply Ha.
Qed.

(** With the head slots of the other queues at other addresses: of the head
    message of a queue the tick changes nothing but the pending mask, and
    that it only clears. *)
Lemma clears_pending_when_heads_apart :
  forall host now status host' i,
    lgmpHostProcess host now = Some (status, host') ->
    0 <= i < hdr_numQueues (host_header host) ->
    q_count (host_queues host i) <> 0 ->
    heads_apart host i ->
    msg_udata (rg_messages (host_mem host') (head_addr host i))
    = msg_udata (head_message host i) /\
    msg_size (rg_messages (host_mem host') (head_addr host i))
    = msg_size (head_message host i) /\
    msg_offset (rg_messages (host_mem host') (head_addr host i))
    = msg_offset (head_message host i) /\
    (msg_pendingSubs (rg_messages (host_mem host') (head_addr host i))
     = msg_pendingSubs (head_message host i)
     \/ msg_pendingSubs (rg_messages (host_mem host') (head_addr host i)) = 0).
Proof.
  intros host now status host' i Hret Hi Hnz Hapart.
  destruct (lgmpHostProcess_at _ _ _ _ i Hret Hi Hnz Hapart) as [_ Hview].
  unfold view, tick_at in Hview.
  destruct (Z.eq_dec (lagging (hq_subs (hdr_queues (host_header host) i))
                              (msg_pendingSubs (head_message host i))) 0) as [Hz|Hlag].
  - rewrite process_locked_acked in Hview by assumption.
    injection Hview as _ _ ->. auto.
  - destruct (Z.lt_ge_cases (q_msgTimeout (host_queues host i)) now) as [Hnow|Hnow].
    + rewrite process_locked_expired in Hview by (assumption || lia).
      injection Hview as _ _ ->. cbn. auto.
    + rewrite process_locked_waiting in Hview by assumption.
      injection Hview as _ _ ->. auto.
Qed.

(** X18.  A tick never subscribes anybody: in every queue, a subscriber
    subscribed after the tick was subscribed before it. *)
Theorem tick_never_subscribes :
  forall host now status host' i id,
    lgmpHostProcess host now = Some (status, host') ->
    0 <= id < 32 ->
    subscribed (hq_subs (hdr_queues (host_header host') i)) id = true ->
    subscribed (hq_subs (hdr_queues (host_header host) i)) id = true.
Proof.
  intros host now status host' i id Hret Hid.
  apply (lgmpHostProcess_invariant
           (fun h => subscribed (hq_subs (hdr_queues (host_header h) i)) id = true ->
                     subscribed (hq_subs (hdr_queues (host_header host) i)) id = true)
           host now status host');
    [ | intros h v Hh; exact Hh | auto | assumption ].
  intros h j h1 Hh H1 Hsub. apply Hh.
  destruct (process_queue_effect _ _ _ _ H1) as (_ & _ & _ & _ & Hother & Hzero & Hown).
  destruct (Z.eq_dec i j) as [<-|Hne].
  - destruct (Z.eq_dec (q_count (host_queues h i)) 0) as [Hz|Hnz].
    + now rewrite (Hzero Hz) in Hsub.
    + destruct (Hown Hnz) as [_ Hhq]. rewrite Hhq in Hsub. unfold tick_at in Hsub.
      destruct (process_locked_subs now (host_queues h i)
                  (hdr_queues (host_header h) i) (head_message h i))
        as (subs1 & timeout & Heq & Hsubs1).
      rewrite Heq in Hsub. apply subscribed_reaped in Hsub; [|assumption].
      destruct Hsubs1 as [->| ->]; [assumption|].
      unfold subscribed in *. now rewrite SUBS_ON_OR_BAD in Hsub.
  - destruct (Hother i Hne) as [_ Hhq]. now rewrite Hhq in Hsub.
Qed.

(** X19.  A tick keeps the flagged-bad mask of a queue within its subscribed
    mask when every lagging recipient of the head message is subscribed. *)
Theorem tick_keeps_bad_within_subscribed :
  forall host now status host' i,
    lgmpHostProcess host now = Some (status, host') ->
    0 <= i < hdr_numQueues (host_header host) ->
    q_count (host_queues host i) <> 0 ->
    bad_within_subscribed (hq_subs (hdr_queues (host_header host) i)) ->
    (forall id, 0 <= id < 32 ->
       Z.testbit (lagging (hq_subs (hdr_queues (host_header host) i))
                          (msg_pendingSubs (head_message host i))) id = true ->
       subscribed (hq_subs (hdr_queues (host_header host) i)) id = true) ->
    bad_within_subscribed (hq_subs (hdr_queues (host_header host') i)).
Proof.
  intros host now status host' i Hret Hi Hnz Hinv Hlagsub.
  pose proof (lgmpHostProcess_cases _ _ _ _ i Hret Hi Hnz) as Hcases.
  set (subs := hq_subs (hdr_queues (host_header host) i)) in *.
  set (pend := msg_pendingSubs (head_message host i)) in *.
  assert (Hkeep : forall subs1 timeout,
            bad_within_subscribed subs1 ->
            bad_within_subscribed (reaped subs1 now timeout)).
  { intros subs1 timeout H1 id Hid.
    destruct (Z.eq_dec (LGMP_SUBS_ON subs1) 0) as [Hz|Hon].
    - rewrite reaped_nobody by assumption. now apply H1.
    - destruct (reaped_spec subs1 now timeout id Hid Hon) as [-> ->].
      intros Hb. apply andb_true_iff in Hb. destruct Hb as [Hb Hn].
      rewrite (H1 id Hid Hb), Hb. cbn [andb].
      apply negb_true_iff in Hn. now rewrite Hn. }
  assert (Hflag : bad_within_subscribed (LGMP_SUBS_OR_BAD subs (lagging subs pend))).
  { intros id Hid. rewrite flagged_bad_OR_BAD by assumption.
    unfold subscribed. rewrite SUBS_ON_OR_BAD. fold (subscribed subs id).
    intros Hb. apply orb_true_iff in Hb. destruct Hb as [Hb|Hb]; auto. }
  destruct Hcases as [(_ & ->) | [(_ & _ & _ & ->) | (_ & _ & _ & ->)]];
    cbn [hq_subs set_subs_unlock]; now apply Hkeep.
Qed.

End TickEffects.

(** ** A post followed by a tick *)

Section PostThenTick.
Context {L : Layout}.

Lemma lagging_recipients subs : lagging subs (recipients subs) = recipients subs.
Proof.
  unfold lagging, recipients. now rewrite <- Z.land_assoc, Z.land_diag.
Qed.

(** X20.  A message posted into an empty queue is still outstanding, with the
    pending mask it was posted with, after any tick up to 150 ms later: it
    is not completed before a recipient acknowledges it or the deadline
    passes. *)
Theorem fresh_message_survives_until_deadline :
  forall host qi udata payload clock now status host2,
    sizeof_LGMPHeaderMessage <= 2 ^ 32 ->
    reachable host -> queues_have_slots host ->
    0 <= qi < hdr_numQueues (host_header host) ->
    2 <= hq_numMessages (hdr_queues (host_header host) qi) ->
    q_count (host_queues host qi) = 0 ->
    recipients (hq_subs (hdr_queues (host_header host) qi)) <> 0 ->
    0 <= clock -> clock + LGMP_MAX_MESSAGE_AGE < 2 ^ 64 ->
    now <= clock + LGMP_MAX_MESSAGE_AGE ->
    lgmpHostProcess (snd (lgmpHostPost host qi udata payload clock)) now
    = Some (status, host2) ->
    q_count (host_queues host2 qi) = 1 /\
    q_start (host_queues host2 qi) = q_start (host_queues host qi) /\
    rg_messages (host_mem host2)
                (msg_addr (hdr_queues (host_header host) qi)
                          (q_position (host_queues host qi)))
    = mkMessage udata (mem_size payload) (mem_offset payload)
                (recipients (hq_subs (hdr_queues (host_header host) qi))).
Proof.
  intros host qi udata payload clock now status host2
         Hsz Hreach Hslots Hqi Hnm Hempty Hrec Hclock0 Hclock1 Hnow Hret.
  destruct (reachable_queues_ok host Hreach) as [_ Hok].
  destruct (Hok qi Hqi) as [_ Hidx].
  destruct (reachable_ring_ok host Hreach qi Hqi) as (Hrange & _ & Hcur).
  destruct Hcur as (Hstart & _ & Hmod); [lia|].
  rewrite Hempty, Z.add_0_r, Z.mod_small in Hmod by lia.
  assert (Hdescr : descriptor host qi = hdr_queues (host_header host) qi)
    by (unfold descriptor; now rewrite Hidx).
  assert (Hrec' : recipients (hq_subs (descriptor host qi)) <> 0) by now rewrite Hdescr.
  assert (Hfull : q_count (host_queues host qi)
                  <> u32 (hq_numMessages (descriptor host qi) - 1)).
  { rewrite Hdescr, Hempty, u32_small; lia. }
  destruct (lgmpHostPost_written host qi udata payload clock Hrec' Hfull Hidx)
    as (Hq & Hhq & _ & Hmsg & _ & _ & Hn & _).
  set (host1 := snd (lgmpHostPost host qi udata payload clock)) in *.
  assert (Hreach1 : reachable host1).
  { eapply reach_step; [exact Hreach|]. now apply step_post. }
  assert (Hslots1 : queues_have_slots host1).
  { intros k Hk. rewrite Hn in Hk.
    destruct (post_keeps_descriptors host qi udata payload clock k) as (Hk1 & _).
    fold host1 in Hk1. rewrite Hk1. now apply Hslots. }
  assert (Hqi1 : 0 <= qi < hdr_numQueues (host_header host1)) by now rewrite Hn.
  assert (Hcount1 : q_count (host_queues host1 qi) = 1).
  { rewrite Hq, Hempty. cbn [q_count]. apply u32_small. lia. }
  assert (Hhead : head_addr host1 qi
                  = msg_addr (hdr_queues (host_header host) qi)
                             (q_position (host_queues host qi))).
  { unfold head_addr. rewrite Hq, Hhq, Hmod. reflexivity. }
  clearbody host1.
  destruct (lgmpHostProcess_at host1 now status host2 qi Hret Hqi1) as [_ Hview].
  - rewrite Hcount1. discriminate.
  - now apply reachable_heads_apart.
  - unfold view, tick_at, head_message in Hview. rewrite Hhead, Hmsg in Hview.
    rewrite process_locked_waiting in Hview.
    + injection Hview as Hq2 _ Hm2. rewrite Hq2, Hm2, Hq.
      cbn [q_count q_start]. rewrite Hempty. repeat split.
    + rewrite Hhq. cbn [hq_subs set_hq_position msg_pendingSubs].
      now rewrite lagging_recipients.
    + rewrite Hq, Hempty. cbn [q_msgTimeout Z.eqb].
      unfold LGMP_MAX_MESSAGE_AGE in *. rewrite u64_small; lia.
Qed.

End PostThenTick.

(** ** The tick on the slots of a host whose queues all have slots *)

Section SlottedTicks.
Context {L : Layout}.


(** X13.  In a host reached by the calls, all of whose queues have at least
    one slot: while a recipient that is not flagged bad is pending and the
    clock has not passed the head deadline, the tick leaves the queue and
    its head message as they are. *)
Theorem tick_waits_for_deadline :
  forall host now status host' i,
    sizeof_LGMPHeaderMessage <= 2 ^ 32 ->
    reachable host -> queues_have_slots host ->
    lgmpHostProcess host now = Some (status, host') ->
    0 <= i < hdr_numQueues (host_header host) ->
    q_count (host_queues host i) <> 0 ->
    lagging (hq_subs (hdr_queues (host_header host) i))
            (msg_pendingSubs (head_message host i)) <> 0 ->
    now <= q_msgTimeout (host_queues host i) ->
    host_queues host' i = host_queues host i /\
    rg_messages (host_mem host') (head_addr host i) = head_message host i.
Proof.
  intros host now status host' i Hsz Hreach Hslots Hret Hi Hnz Hlag Hnow.
  apply (waits_when_heads_apart host now status host' i); try assumption.
  now apply reachable_heads_apart.
Qed.

(** X16.  In a host reached by the calls, all of whose queues have at least
    one slot, the only message slots a tick writes are head slots of queues
    with an outstanding message: every other slot of every queue keeps its
    content. *)
Theorem tick_touches_only_head_slots :
  forall host now status host' j k,
    sizeof_LGMPHeaderMessage <= 2 ^ 32 ->
    reachable host -> queues_have_slots host ->
    lgmpHostProcess host now = Some (status, host') ->
    0 <= j < hdr_numQueues (host_header host) ->
    0 <= k < hq_numMessages (hdr_queues (host_header host) j) ->
    q_count (host_queues host j) = 0 \/ k <> q_start (host_queues host j) ->
    rg_messages (host_mem host') (msg_addr (hdr_queues (host_header host) j) k)
    = rg_messages (host_mem host) (msg_addr (hdr_queues (host_header host) j) k).
Proof.
  intros host now status host' j k Hsz Hreach Hslots Hret Hj Hk Hother.
  apply (tick_keeps_other_addresses host now status host' _ Hret).
  intros j' Hj' Hnz. unfold head_addr.
  destruct (Z.eq_dec j' j) as [->|Hne].
  - intros Heq. apply msg_addr_inj in Heq. destruct Hother; congruence.
  - destruct (reachable_ring_ok host Hreach j' Hj') as (_ & _ & Hcur).
    destruct (Hcur (Hslots j' Hj')) as (Hstart & _ & _).
    apply slots_apart; auto using reachable_arrays_ok.
Qed.

(** X17.  In a host reached by the calls, all of whose queues have at least
    one slot: of the head message of a queue the tick changes nothing but
    the pending mask, and that it only clears: tag, size and offset stay,
    and the mask is the one found or 0. *)
Theorem tick_only_clears_pending :
  forall host now status host' i,
    sizeof_LGMPHeaderMessage <= 2 ^ 32 ->
    reachable host -> queues_have_slots host ->
    lgmpHostProcess host now = Some (status, host') ->
    0 <= i < hdr_numQueues (host_header host) ->
    q_count (host_queues host i) <> 0 ->
    msg_udata (rg_messages (host_mem host') (head_addr host i))
    = msg_udata (head_message host i) /\
    msg_size (rg_messages (host_mem host') (head_addr host i))
    = msg_size (head_message host i) /\
    msg_offset (rg_messages (host_mem host') (head_addr host i))
    = msg_offset (head_message host i) /\
    (msg_pendingSubs (rg_messages (host_mem host') (head_addr host i))
     = msg_pendingSubs (head_message host i)
     \/ msg_pendingSubs (rg_messages (host_mem host') (head_addr host i)) = 0).
Proof.
  intros host now status host' i Hsz Hreach Hslots Hret Hi Hnz.
  apply (clears_pending_when_heads_apart host now status host' i); try assumption.
  now apply reachable_heads_apart.
Qed.

End SlottedTicks.

(** ** The further properties on the scenario *)

Lemma reachable_host_two : reachable host_two.
Proof.
  eapply reach_step; [exact reachable_host_sub0_4|].
  apply (step_addQueue (host_sub0 4) 2 2 1000). lia.
Qed.


Lemma host_sub0_4_has_slots : queues_have_slots (host_sub0 4).
Proof.
  intros i Hi. change (hdr_numQueues (host_header (host_sub0 4))) with 1 in Hi.
  assert (Hcase : i = 0) by lia.
  subst i. vm_compute. discriminate.
Qed.

Lemma queue_directory_bounded_witness :
  reachable host_two /\
  0 <= hdr_numQueues (host_header host_two) <= LGMP_MAX_QUEUES.
Proof.
  split; [exact reachable_host_two|].
  apply (queue_directory_bounded host_two);
    [vm_compute; discriminate | exact reachable_host_two].
Defined.


Lemma post_on_fresh_queue_is_noop_witness :
  lgmpHostAddQueue host0 1 4 1000
  = (LGMP_OK, Some 0, snd (lgmpHostAddQueue host0 1 4 1000)) /\
  lgmpHostPost (snd (lgmpHostAddQueue host0 1 4 1000)) 0 5 payload0 1001
  = (Some LGMP_OK, snd (lgmpHostAddQueue host0 1 4 1000)).
Proof.
  split; [vm_compute; reflexivity|].
  apply (post_on_fresh_queue_is_noop host0 1 4 1000 0
           (snd (lgmpHostAddQueue host0 1 4 1000)) 5 payload0 1001).
  vm_compute. reflexivity.
Defined.


Lemma descriptor_fixed_after_creation_witness :
  steps (host_sub0 4) (backlog 1) /\
  hq_numMessages (hdr_queues (host_header (backlog 1)) 0)
  = hq_numMessages (hdr_queues (host_header (host_sub0 4)) 0) /\
  hq_messagesOffset (hdr_queues (host_header (backlog 1)) 0)
  = hq_messagesOffset (hdr_queues (host_header (host_sub0 4)) 0).
Proof.
  assert (Hsteps : steps (host_sub0 4) (backlog 1)).
  { apply (steps_step (host_sub0 4) (host_sub0 4) (backlog 1)); [apply steps_refl|].
    apply (step_post (host_sub0 4) 0 0 payload0 1000).
    vm_compute. split; [discriminate | reflexivity]. }
  split; [exact Hsteps|].
  destruct (descriptor_fixed_after_creation (host_sub0 4) (backlog 1) 0)
    as (_ & _ & Hnm & Hoff).
  - vm_compute. split; [discriminate | reflexivity].
  - exact reachable_host_sub0_4.
  - exact Hsteps.
  - vm_compute. split; [discriminate | reflexivity].
  - split; assumption.
Defined.

Lemma payload_block_in_bounds_witness :
  lgmpHostMemAlloc host0 64 true None
  = (LGMP_OK, Some (mkMemory 128 64), snd (lgmpHostMemAlloc host0 64 true None)) /\
  sizeof_LGMPHeader <= 128 /\
  128 + 64 = host_nextFree (snd (lgmpHostMemAlloc host0 64 true None)) /\
  host_nextFree (snd (lgmpHostMemAlloc host0 64 true None)) <= host_size host0.
Proof.
  assert (Halloc : lgmpHostMemAlloc host0 64 true None
                   = (LGMP_OK, Some (mkMemory 128 64),
                      snd (lgmpHostMemAlloc host0 64 true None)))
    by (vm_compute; reflexivity).
  split; [exact Halloc|].
  destruct (payload_block_in_bounds host0 64 true None (mkMemory 128 64)
              (snd (lgmpHostMemAlloc host0 64 true None)) host0_reachable)
    as (_ & Hhdr & Hend & Hsize); [lia | exact Halloc |].
  split; [exact Hhdr|]. split; [exact Hend | exact Hsize].
Defined.

Lemma payload_blocks_disjoint_witness :
  lgmpHostMemAlloc (snd (lgmpHostMemAlloc host0 64 true None)) 32 true None
  = (LGMP_OK, Some (mkMemory 192 32),
     snd (lgmpHostMemAlloc (snd (lgmpHostMemAlloc host0 64 true None)) 32 true None)) /\
  mem_offset (mkMemory 128 64) + mem_size (mkMemory 128 64)
  <= mem_offset (mkMemory 192 32).
Proof.
  assert (Halloc2 :
            lgmpHostMemAlloc (snd (lgmpHostMemAlloc host0 64 true None)) 32 true None
            = (LGMP_OK, Some (mkMemory 192 32),
               snd (lgmpHostMemAlloc (snd (lgmpHostMemAlloc host0 64 true None)) 32 true None)))
    by (vm_compute; reflexivity).
  split; [exact Halloc2|].
  apply (payload_blocks_disjoint host0 64 true None (mkMemory 128 64)
           (snd (lgmpHostMemAlloc host0 64 true None))
           (snd (lgmpHostMemAlloc host0 64 true None)) 32 true None (mkMemory 192 32)
           (snd (lgmpHostMemAlloc (snd (lgmpHostMemAlloc host0 64 true None)) 32 true None))).
  - exact host0_reachable.
  - lia.
  - vm_compute. reflexivity.
  - apply steps_refl.
  - exact Halloc2.
Defined.

Lemma slot_arrays_in_bounds_witness :
  reachable host_two /\
  sizeof_LGMPHeader <= hq_messagesOffset (hdr_queues (host_header host_two) 0) /\
  slots_end (hdr_queues (host_header host_two) 0)
  <= hq_messagesOffset (hdr_queues (host_header host_two) 1).
Proof.
  split; [exact reachable_host_two|].
  destruct (slot_arrays_in_bounds host_two 0) as (Hhdr & _ & _ & Hpair).
  - vm_compute. discriminate.
  - exact reachable_host_two.
  - vm_compute. split; [discriminate | reflexivity].
  - split; [exact Hhdr|]. apply Hpair. vm_compute. split; reflexivity.
Defined.

Lemma ring_cursors_in_range_witness :
  reachable (backlog 3) /\
  q_position (host_queues (backlog 3) 0)
  = (q_start (host_queues (backlog 3) 0) + q_count (host_queues (backlog 3) 0))
      mod hq_numMessages (hdr_queues (host_header (backlog 3)) 0) /\
  hq_position (hdr_queues (host_header (backlog 3)) 0)
  = q_position (host_queues (backlog 3) 0).
Proof.
  split; [exact (reachable_backlog 3)|].
  destruct (ring_cursors_in_range (backlog 3) 0) as (_ & _ & _ & Hmod & Hpos).
  - exact (reachable_backlog 3).
  - vm_compute. split; [discriminate | reflexivity].
  - vm_compute. discriminate.
  - split; assumption.
Defined.


Lemma backlog3_has_slots : queues_have_slots (backlog 3).
Proof.
  intros i Hi. change (hdr_numQueues (host_header (backlog 3))) with 1 in Hi.
  assert (Hcase : i = 0) by lia.
  subst i. vm_compute. discriminate.
Qed.

Lemma post_writes_free_slot_witness :
  fst (lgmpHostPost (backlog 3) 0 5 payload0 1001) = None /\
  (forall k, 0 <= k < q_count (host_queues (backlog 3) 0) ->
     (q_start (host_queues (backlog 3) 0) + k)
       mod hq_numMessages (hdr_queues (host_header (backlog 3)) 0)
     <> q_position (host_queues (backlog 3) 0)) /\
  rg_messages (host_mem (snd (lgmpHostPost (backlog 3) 0 5 payload0 1001)))
              (msg_addr (hdr_queues (host_header (backlog 3)) 0) 0)
  = rg_messages (host_mem (backlog 3)) (msg_addr (hdr_queues (host_header (backlog 3)) 0) 0).
Proof.
  assert (Hwrote : fst (lgmpHostPost (backlog 3) 0 5 payload0 1001) = None)
    by (vm_compute; reflexivity).
  split; [exact Hwrote|].
  destruct (post_writes_free_slot (backlog 3) 0 5 payload0 1001)
    as (_ & _ & _ & _ & Hfree & Hframe).
  - vm_compute. discriminate.
  - exact (reachable_backlog 3).
  - exact backlog3_has_slots.
  - vm_compute. split; [discriminate | reflexivity].
  - exact Hwrote.
  - split; [exact Hfree|]. apply Hframe.
    + vm_compute. split; [discriminate | reflexivity].
    + vm_compute. split; [discriminate | reflexivity].
    + right. vm_compute. discriminate.
Defined.




Lemma tick_waits_for_deadline_witness :
  lagging (hq_subs (hdr_queues (host_header (backlog 3)) 0))
          (msg_pendingSubs (head_message (backlog 3) 0)) = 1 /\
  1100 <= q_msgTimeout (host_queues (backlog 3) 0) /\
  host_queues (tick (backlog 3) 1100) 0 = host_queues (backlog 3) 0 /\
  rg_messages (host_mem (tick (backlog 3) 1100)) (head_addr (backlog 3) 0)
  = head_message (backlog 3) 0.
Proof.
  split; [vm_compute; reflexivity|].
  split; [vm_compute; discriminate|].
  apply (tick_waits_for_deadline (backlog 3) 1100 LGMP_OK (tick (backlog 3) 1100) 0).
  - vm_compute. discriminate.
  - exact (reachable_backlog 3).
  - exact backlog3_has_slots.
  - apply tick_returns. vm_compute. discriminate.
  - vm_compute. split; [discriminate | reflexivity].
  - vm_compute. discriminate.
  - vm_compute. discriminate.
  - vm_compute. discriminate.
Defined.

Lemma tick_touches_only_head_slots_witness :
  q_start (host_queues (backlog 3) 0) = 0 /\
  q_count (host_queues (backlog 3) 0) = 3 /\
  rg_messages (host_mem (flagged 3)) (msg_addr (hdr_queues (host_header (backlog 3)) 0) 1)
  = rg_messages (host_mem (backlog 3)) (msg_addr (hdr_queues (host_header (backlog 3)) 0) 1).
Proof.
  split; [vm_compute; reflexivity|].
  split; [vm_compute; reflexivity|].
  apply (tick_touches_only_head_slots (backlog 3) 2000 LGMP_OK (flagged 3) 0 1).
  - vm_compute. discriminate.
  - exact (reachable_backlog 3).
  - exact backlog3_has_slots.
  - apply tick_returns. vm_compute. discriminate.
  - vm_compute. split; [discriminate | reflexivity].
  - vm_compute. split; [discriminate | reflexivity].
  - right. vm_compute. discriminate.
Defined.

Lemma tick_only_clears_pending_witness :
  msg_pendingSubs (head_message (backlog 3) 0) = 1 /\
  msg_udata (rg_messages (host_mem (flagged 3)) (head_addr (backlog 3) 0))
  = msg_udata (head_message (backlog 3) 0) /\
  (msg_pendingSubs (rg_messages (host_mem (flagged 3)) (head_addr (backlog 3) 0))
   = msg_pendingSubs (head_message (backlog 3) 0)
   \/ msg_pendingSubs (rg_messages (host_mem (flagged 3)) (head_addr (backlog 3) 0)) = 0).
Proof.
  split; [vm_compute; reflexivity|].
  destruct (tick_only_clears_pending (backlog 3) 2000 LGMP_OK (flagged 3) 0)
    as (Hudata & _ & _ & Hpend).
  - vm_compute. discriminate.
  - exact (reachable_backlog 3).
  - exact backlog3_has_slots.
  - apply tick_returns. vm_compute. discriminate.
  - vm_compute. split; [discriminate | reflexivity].
  - vm_compute. discriminate.
  - split; assumption.
Defined.

Lemma post_advances_ring_witness :
  fst (lgmpHostPost (backlog 3) 0 5 payload0 1001) = None /\
  q_count (host_queues (snd (lgmpHostPost (backlog 3) 0 5 payload0 1001)) 0)
  = q_count (host_queues (backlog 3) 0) + 1.
Proof.
  assert (Hwrote : fst (lgmpHostPost (backlog 3) 0 5 payload0 1001) = None)
    by (vm_compute; reflexivity).
  split; [exact Hwrote|].
  destruct (post_advances_ring (backlog 3) 0 5 payload0 1001) as (Hcount & _).
  - exact (reachable_backlog 3).
  - vm_compute. split; [discriminate | reflexivity].
  - vm_compute. discriminate.
  - exact Hwrote.
  - exact Hcount.
Defined.

Lemma tick_skips_empty_queue_witness :
  q_count (host_queues host_two 1) = 0 /\
  host_queues (tick host_two 20000) 1 = host_queues host_two 1 /\
  hdr_queues (host_header (tick host_two 20000)) 1 = hdr_queues (host_header host_two) 1.
Proof.
  split; [vm_compute; reflexivity|].
  apply (tick_skips_empty_queue host_two 20000 LGMP_OK (tick host_two 20000) 1).
  - apply tick_returns. vm_compute. discriminate.
  - vm_compute. reflexivity.
Defined.

Lemma tick_increments_heartbeat_witness :
  lgmpHostProcess (backlog 3) 2000 = Some (LGMP_OK, flagged 3) /\
  hdr_heartbeat (host_header (flagged 3))
  = u32 (hdr_heartbeat (host_header (backlog 3)) + 1) /\
  hdr_sessionID (host_header (flagged 3)) = hdr_sessionID (host_header (backlog 3)).
Proof.
  assert (Hret : lgmpHostProcess (backlog 3) 2000 = Some (LGMP_OK, flagged 3))
    by (apply tick_returns; vm_compute; discriminate).
  split; [exact Hret|].
  destruct (tick_increments_heartbeat (backlog 3) 2000 LGMP_OK (flagged 3) Hret)
    as (_ & Hbeat & Hsid & _).
  split; assumption.
Defined.

Lemma tick_never_subscribes_witness :
  subscribed (hq_subs (hdr_queues (host_header (flagged 3)) 0)) 0 = true /\
  subscribed (hq_subs (hdr_queues (host_header (backlog 3)) 0)) 0 = true.
Proof.
  assert (Hafter : subscribed (hq_subs (hdr_queues (host_header (flagged 3)) 0)) 0 = true)
    by (vm_compute; reflexivity).
  split; [exact Hafter|].
  apply (tick_never_subscribes (backlog 3) 2000 LGMP_OK (flagged 3) 0 0).
  - apply tick_returns. vm_compute. discriminate.
  - lia.
  - exact Hafter.
Defined.

Lemma backlog3_has_no_bad :
  bad_within_subscribed (hq_subs (hdr_queues (host_header (backlog 3)) 0)).
Proof.
  intros id Hid Hbad. exfalso.
  change (hq_subs (hdr_queues (host_header (backlog 3)) 0)) with 4294967296 in Hbad.
  unfold flagged_bad in Hbad. rewrite testbit_SUBS_BAD in Hbad by lia.
  change 4294967296 with (bit 32) in Hbad. rewrite testbit_bit in Hbad by lia.
  assert (Hne : (id =? 32) = false) by (apply Z.eqb_neq; lia).
  rewrite Hne, andb_false_r in Hbad. discriminate.
Qed.

Lemma backlog3_lagging_subscribed id :
  0 <= id < 32 ->
  Z.testbit (lagging (hq_subs (hdr_queues (host_header (backlog 3)) 0))
                     (msg_pendingSubs (head_message (backlog 3) 0))) id = true ->
  subscribed (hq_subs (hdr_queues (host_header (backlog 3)) 0)) id = true.
Proof.
  intros Hid Hlag.
  change (lagging (hq_subs (hdr_queues (host_header (backlog 3)) 0))
                  (msg_pendingSubs (head_message (backlog 3) 0)))
    with (bit 0) in Hlag.
  rewrite testbit_bit in Hlag by lia. apply Z.eqb_eq in Hlag. subst id.
  vm_compute. reflexivity.
Qed.

Lemma tick_keeps_bad_within_subscribed_witness :
  bad_within_subscribed (hq_subs (hdr_queues (host_header (backlog 3)) 0)) /\
  bad_within_subscribed (hq_subs (hdr_queues (host_header (flagged 3)) 0)).
Proof.
  split; [exact backlog3_has_no_bad|].
  apply (tick_keeps_bad_within_subscribed (backlog 3) 2000 LGMP_OK (flagged 3) 0).
  - apply tick_returns. vm_compute. discriminate.
  - vm_compute. split; [discriminate | reflexivity].
  - vm_compute. discriminate.
  - exact backlog3_has_no_bad.
  - exact backlog3_lagging_subscribed.
Defined.

Lemma fresh_message_survives_until_deadline_witness :
  q_count (host_queues (host_sub0 4) 0) = 0 /\
  q_count (host_queues (tick (snd (lgmpHostPost (host_sub0 4) 0 5 payload0 1000)) 1100) 0)
  = 1 /\
  rg_messages (host_mem (tick (snd (lgmpHostPost (host_sub0 4) 0 5 payload0 1000)) 1100))
              (msg_addr (hdr_queues (host_header (host_sub0 4)) 0)
                        (q_position (host_queues (host_sub0 4) 0)))
  = mkMessage 5 (mem_size payload0) (mem_offset payload0)
              (recipients (hq_subs (hdr_queues (host_header (host_sub0 4)) 0))).
Proof.
  split; [vm_compute; reflexivity|].
  destruct (fresh_message_survives_until_deadline
              (host_sub0 4) 0 5 payload0 1000 1100 LGMP_OK
              (tick (snd (lgmpHostPost (host_sub0 4) 0 5 payload0 1000)) 1100))
    as (Hcount & _ & Hmsg).
  - vm_compute. discriminate.
  - exact reachable_host_sub0_4.
  - exact host_sub0_4_has_slots.
  - vm_compute. split; [discriminate | reflexivity].
  - vm_compute. discriminate.
  - vm_compute. reflexivity.
  - vm_compute. discriminate.
  - lia.
  - vm_compute. reflexivity.
  - vm_compute. discriminate.
  - apply tick_returns. vm_compute. discriminate.
  - split; assumption.
Defined.

Lemma lgmpHostInit_returns_witness :
  exists host,
    lgmpHostInit blank_region 4096 1000 (Some blank_host) [0; 7]
    = Some (LGMP_OK, Some host).
Proof.
  apply (lgmpHostInit_returns blank_region 4096 1000 blank_host [0; 7]).
  - discriminate.
  - vm_compute. discriminate.
  - exists 7. split; [right; left; reflexivity | vm_compute; discriminate].
Defined.

(** ** What a tick does not do *)

Section TickLimits.
Context {L : Layout}.

Lemma flagged_reaped subs now timeout id :
  0 <= id < 32 ->
  flagged_bad (reaped subs now timeout) id = true -> flagged_bad subs id = true.
Proof.
  intros Hid. destruct (Z.eq_dec (LGMP_SUBS_ON subs) 0) as [Hz|Hnz].
  - now rewrite reaped_nobody.
  - destruct (reaped_spec subs now timeout id Hid Hnz) as [-> _].
    intros H. apply andb_true_iff in H. tauto.
Qed.

(** X23.  A tick completes at most one message of a queue: the count stays
    or drops by one, and the write cursor stays. *)
Theorem tick_completes_at_most_one :
  forall host now status host' i,
    lgmpHostProcess host now = Some (status, host') ->
    0 <= i < hdr_numQueues (host_header host) ->
    0 < q_count (host_queues host i) < 2 ^ 32 ->
    q_position (host_queues host' i) = q_position (host_queues host i) /\
    ((q_count (host_queues host' i) = q_count (host_queues host i) /\
      q_start (host_queues host' i) = q_start (host_queues host i))
     \/ (q_count (host_queues host' i) = q_count (host_queues host i) - 1 /\
         q_start (host_queues host' i)
         = advance (q_start (host_queues host i))
                   (hq_numMessages (hdr_queues (host_header host) i)))).
Proof.
  intros host now status host' i Hret Hi Hcount.
  destruct (lgmpHostProcess_at_any _ _ _ _ i Hret Hi) as (msg & _ & Hq & _); [lia|].
  pose proof (process_locked_cursors now (host_queues host i)
                (hdr_queues (host_header host) i) msg) as Hc.
  cbv zeta in Hc. rewrite <- Hq in Hc.
  destruct Hc as (_ & _ & _ & _ & Hpos & [Hs|Hs]).
  - split; [assumption|]. left. tauto.
  - split; [assumption|]. right. destruct Hs as [-> ->].
    rewrite u32_small by lia. auto.
Qed.

(** X24.  A tick writes the reap deadline of a subscriber only when it flags
    the subscriber: every other entry of the table stays. *)
Theorem tick_keeps_other_deadlines :
  forall host now status host' i id,
    lgmpHostProcess host now = Some (status, host') ->
    0 <= i < hdr_numQueues (host_header host) ->
    q_count (host_queues host i) <> 0 ->
    q_timeout (host_queues host' i) id = q_timeout (host_queues host i) id
    \/ (Z.testbit (lagging (hq_subs (hdr_queues (host_header host) i))
                           (msg_pendingSubs (head_message host i))) id = true /\
        q_msgTimeout (host_queues host i) < now /\
        q_timeout (host_queues host' i) id = u64 (now + LGMP_MAX_QUEUE_TIMEOUT)).
Proof.
  intros host now status host' i id Hret Hi Hnz.
  destruct (lgmpHostProcess_cases _ _ _ _ i Hret Hi Hnz)
    as [(-> & _) | [(_ & Hnow & -> & _) | (_ & _ & -> & _)]].
  - left. now rewrite q_timeout_complete.
  - rewrite q_timeout_complete.
    cbn [q_timeout set_q_timeout]. rewrite flag_timeouts_spec.
    destruct ((0 <=? id) && (id <? 32)); cbn [andb]; [|now left].
    destruct (Z.testbit _ id); [right; auto | now left].
  - now left.
Qed.

(** X25.  A tick flags no subscriber that is not a lagging recipient of a
    head message past its deadline: a subscriber flagged bad after the tick
    was flagged before it, or was pending, not flagged, on the head message
    when the clock had passed the head deadline. *)
Theorem tick_flags_only_lagging :
  forall host now status host' i id,
    lgmpHostProcess host now = Some (status, host') ->
    0 <= i < hdr_numQueues (host_header host) ->
    q_count (host_queues host i) <> 0 ->
    0 <= id < 32 ->
    flagged_bad (hq_subs (hdr_queues (host_header host') i)) id = true ->
    flagged_bad (hq_subs (hdr_queues (host_header host) i)) id = true
    \/ (Z.testbit (msg_pendingSubs (head_message host i)) id = true /\
        q_msgTimeout (host_queues host i) < now).
Proof.
  intros host now status host' i id Hret Hi Hnz Hid Hbad.
  destruct (lgmpHostProcess_cases _ _ _ _ i Hret Hi Hnz)
    as [(_ & Hhq) | [(_ & Hnow & _ & Hhq) | (_ & _ & _ & Hhq)]];
    rewrite Hhq in Hbad; cbn [hq_subs set_subs_unlock] in Hbad;
    apply flagged_reaped in Hbad; try assumption; try (now left).
  rewrite flagged_bad_OR_BAD in Hbad by assumption.
  apply orb_true_iff in Hbad. destruct Hbad as [Hb|Hb]; [now left|].
  right. rewrite testbit_lagging in Hb by lia.
  apply andb_true_iff in Hb. tauto.
Qed.

End TickLimits.

Lemma reachable_tick_returns_witness :
  reachable (backlog 3) /\
  exists host', lgmpHostProcess (backlog 3) 2000 = Some (LGMP_OK, host').
Proof.
  split; [exact (reachable_backlog 3)|].
  exact (reachable_tick_returns (backlog 3) 2000 (reachable_backlog 3)).
Defined.

Lemma tick_completes_at_most_one_witness :
  q_count (host_queues (backlog 3) 0) = 3 /\
  q_position (host_queues (flagged 3) 0) = q_position (host_queues (backlog 3) 0) /\
  q_count (host_queues (flagged 3) 0) = 2.
Proof.
  split; [vm_compute; reflexivity|].
  destruct (tick_completes_at_most_one (backlog 3) 2000 LGMP_OK (flagged 3) 0)
    as (Hpos & _).
  - apply tick_returns. vm_compute. discriminate.
  - vm_compute. split; [discriminate | reflexivity].
  - vm_compute. split; reflexivity.
  - split; [exact Hpos | vm_compute; reflexivity].
Defined.

Lemma tick_keeps_other_deadlines_witness :
  q_timeout (host_queues (flagged 3) 0) 1 = q_timeout (host_queues (backlog 3) 0) 1
  \/ (Z.testbit (lagging (hq_subs (hdr_queues (host_header (backlog 3)) 0))
                         (msg_pendingSubs (head_message (backlog 3) 0))) 1 = true /\
      q_msgTimeout (host_queues (backlog 3) 0) < 2000 /\
      q_timeout (host_queues (flagged 3) 0) 1 = u64 (2000 + LGMP_MAX_QUEUE_TIMEOUT)).
Proof.
  apply (tick_keeps_other_deadlines (backlog 3) 2000 LGMP_OK (flagged 3) 0 1).
  - apply tick_returns. vm_compute. discriminate.
  - vm_compute. split; [discriminate | reflexivity].
  - vm_compute. discriminate.
Defined.

Lemma tick_flags_only_lagging_witness :
  flagged_bad (hq_subs (hdr_queues (host_header (flagged 3)) 0)) 0 = true /\
  (flagged_bad (hq_subs (hdr_queues (host_header (backlog 3)) 0)) 0 = true
   \/ (Z.testbit (msg_pendingSubs (head_message (backlog 3) 0)) 0 = true /\
       q_msgTimeout (host_queues (backlog 3) 0) < 2000)).
Proof.
  assert (Hbad : flagged_bad (hq_subs (hdr_queues (host_header (flagged 3)) 0)) 0 = true)
    by (vm_compute; reflexivity).
  split; [exact Hbad|].
  apply (tick_flags_only_lagging (backlog 3) 2000 LGMP_OK (flagged 3) 0 0).
  - apply tick_returns. vm_compute. discriminate.
  - vm_compute. split; [discriminate | reflexivity].
  - vm_compute. discriminate.
  - lia.
  - exact Hbad.
Defined.
